(** * Sales dashboard and report: the aggregation pipeline

    A shallow embedding of [DS.py] (the Dash dashboard) and of
    [starter package.py] (the PDF report), and the properties of the
    pipeline they share: load and clean, derive features, filter by month,
    compute the headline metrics and the two chart series.

    Modelling choices.
    - A DataFrame is a list of typed rows, in row order.  A cell that pandas
      holds as NaN / None / NaT is [None].
    - Numeric cells are read in two ways.  Where a property is about which
      rows are added up, a [float64] cell is the rational number it
      denotes ([Qc]) and sums are exact.  Where a property is about the
      digits that come out, module [Binary64] computes the same columns
      in IEEE 754 binary64, rounding as the machine does.
    - [Quantity] is an [int64] column, as [read_csv] types a column of
      whole numbers without a gap; its sum wraps around.
    - [pd.to_datetime] reads a column with one parser, chosen from the
      first timestamp of the column; the date library is a parameter
      ([DateLibrary]) of everything that derives features.
    - The report script updates the DataFrame it is given in place; there
      DataFrames live in a store indexed by object identity. *)

From Stdlib Require Import ZArith QArith Qcanon Qabs Qpower String Ascii Sorted Permutation Lia.
From Stdlib Require Import DecimalString DecimalN DecimalPos SpecFloat.
From stdpp Require Import base option list sorting gmap strings sets numbers.

Local Open Scope Z_scope.
Local Open Scope Qc_scope.
Local Open Scope nat_scope.

(** ** Data model *)

(** A [datetime64] value, as far as the program looks at it. *)
Record Timestamp := mkTimestamp {
  year : nat;
  month : nat;
  day : nat;
  hour : nat;
  minute : nat
}.

(** A monthly [Period]: the value of [dt.to_period("M")]. *)
Record Period := mkPeriod {
  pyear : nat;
  pmonth : nat
}.

(** One row of the CSV file as [pd.read_csv] returns it.  The program names
    five columns; [Extra] holds any other column of the file (stock code,
    customer, country), which [drop_duplicates] and [dropna] look at too. *)
Record Row := mkRow {
  InvoiceNo : option string;
  Description : option string;
  Quantity : option Z;
  InvoiceDate : option string;
  UnitPrice : option Qc;
  Extra : list (option string)
}.

(** One row after feature derivation: [InvoiceDate] has been overwritten
    with the parsed date, [TotalPrice] and [Month] have been attached.
    [M] is the type of the [Month] cell: a string in the dashboard
    ([.astype(str)]), a [Period] (or NaT) in the report script. *)
Record FeatureRow (M : Type) := mkFeatureRow {
  fInvoiceNo : option string;
  fDescription : option string;
  fQuantity : option Z;
  fInvoiceDate : option Timestamp;
  fUnitPrice : option Qc;
  fExtra : list (option string);
  TotalPrice : option Qc;
  Month : M
}.

Arguments mkFeatureRow {M} _ _ _ _ _ _ _ _.
Arguments fInvoiceNo {M} _.
Arguments fDescription {M} _.
Arguments fQuantity {M} _.
Arguments fInvoiceDate {M} _.
Arguments fUnitPrice {M} _.
Arguments fExtra {M} _.
Arguments TotalPrice {M} _.
Arguments Month {M} _.

(** What the program can raise.  [pd.to_datetime] raises on a string it
    cannot parse; the specification calls this failure InvalidTimestamp.
    The bar plot of an empty series raises [IndexError]. *)
Inductive error :=
  | InvalidTimestamp (cell : string)
  | IndexError.

Inductive result (A : Type) :=
  | Ok (a : A)
  | Raise (e : error).

Arguments Ok {A} a.
Arguments Raise {A} e.

#[global] Instance result_ret : MRet result := λ A a, Ok a.

#[global] Instance result_bind : MBind result := λ A B k m,
  match m with
  | Ok a => k a
  | Raise e => Raise e
  end.

#[global] Instance Timestamp_eq_dec : EqDecision Timestamp.
Proof. solve_decision. Defined.

#[global] Instance Period_eq_dec : EqDecision Period.
Proof. solve_decision. Defined.

#[global] Instance Row_eq_dec : EqDecision Row.
Proof. solve_decision. Defined.

#[global] Instance FeatureRow_eq_dec {M} `{EqDecision M} : EqDecision (FeatureRow M).
Proof. solve_decision. Defined.

(** ** The pandas operations the program calls *)

Module Pandas.

(** [Series.unique()]: the distinct values in order of first appearance
    (a hash table filled in one pass).  [seen] is the table so far. *)
Fixpoint unique_from {A} `{EqDecision A} (seen : list A) (col : list A) : list A :=
  match col with
  | [] => []
  | x :: rest =>
      if bool_decide (x ∈ seen) then unique_from seen rest
      else x :: unique_from (x :: seen) rest
  end.

Definition unique {A} `{EqDecision A} (col : list A) : list A :=
  unique_from [] col.

(** [df.drop_duplicates()]: [keep="first"], all columns compared, two
    missing cells compare equal. *)
Definition drop_duplicates (df : list Row) : list Row := unique df.

(** A row without a missing cell, in any column. *)
Definition notna (r : Row) : Prop :=
  is_Some (InvoiceNo r) ∧ is_Some (Description r) ∧ is_Some (Quantity r) ∧
  is_Some (InvoiceDate r) ∧ is_Some (UnitPrice r) ∧
  Forall is_Some (Extra r).

#[global] Instance notna_dec r : Decision (notna r).
Proof. unfold notna. apply _. Defined.

(** [df.dropna()]: [how="any"], drops every row that has a missing cell. *)
Definition dropna (df : list Row) : list Row := filter notna df.

(** [remove_na]: the present values of a column. *)
Definition remove_na {A} (col : list (option A)) : list A := omap id col.

(** [Series.sum()], [skipna=True]; the sum of no value is 0.  The values
    are added exactly; [Binary64.sum] adds them as the machine does. *)
Definition sum (col : list (option Qc)) : Qc :=
  foldr Qcplus 0%Qc (remove_na col).

(** [Series.mean()], [skipna=True]; the mean of no value is NaN.  Exact,
    as [sum]. *)
Definition mean (col : list (option Qc)) : option Qc :=
  match remove_na col with
  | [] => None
  | xs => Some (foldr Qcplus 0%Qc xs / Q2Qc (inject_Z (Z.of_nat (length xs))))%Qc
  end.

(** [Series.nunique()], [dropna=True]. *)
Definition nunique {A} `{EqDecision A} (col : list (option A)) : nat :=
  length (remove_na (unique col)).

(** The hash table of [value_counts]: one counter per value, values in
    order of first appearance. *)
Fixpoint count_into {A} `{EqDecision A} (tbl : list (A * nat)) (x : A) : list (A * nat) :=
  match tbl with
  | [] => [(x, 1)]
  | (y, n) :: rest =>
      if decide (x = y) then (y, S n) :: rest else (y, n) :: count_into rest x
  end.

Definition value_count {A} `{EqDecision A} (col : list A) : list (A * nat) :=
  foldl count_into [] col.

(** [sort_values(ascending=False)] on the counts, taken to be stable: a
    value goes in front of the first entry whose count is not larger. *)
Fixpoint insert_desc {A} (e : A * nat) (sorted : list (A * nat)) : list (A * nat) :=
  match sorted with
  | [] => [e]
  | e' :: rest =>
      if (e'.2 <=? e.2)%nat then e :: e' :: rest else e' :: insert_desc e rest
  end.

Definition sort_values_desc {A} (tbl : list (A * nat)) : list (A * nat) :=
  foldr insert_desc [] tbl.

(** [Series.value_counts()]: [dropna=True], [sort=True], descending. *)
Definition value_counts {A} `{EqDecision A} (col : list (option A)) : list (A * nat) :=
  sort_values_desc (value_count (remove_na col)).

(** [.head(n)]. *)
Definition head {A} (n : nat) (l : list A) : list A := take n l.

(** The accumulator of [groupby(...).sum()]: one running sum per key, keys
    in order of first appearance; a NaN value adds nothing to its group.
    The sums are exact; [Binary64.add_into] rounds as the machine does. *)
Fixpoint add_into {K} `{EqDecision K} (tbl : list (K * Qc)) (k : K) (v : option Qc)
  : list (K * Qc) :=
  match tbl with
  | [] => [(k, default 0%Qc v)]
  | (k', s) :: rest =>
      if decide (k = k') then (k', (s + default 0%Qc v)%Qc) :: rest
      else (k', s) :: add_into rest k v
  end.

Definition group_sum {K} `{EqDecision K} (rows : list (K * option Qc)) : list (K * Qc) :=
  foldl (λ tbl kv, add_into tbl kv.1 kv.2) [] rows.

(** The groups come out sorted by key ([sort=True]). *)
Fixpoint insert_key {K V} (leb : K → K → bool) (e : K * V) (sorted : list (K * V))
  : list (K * V) :=
  match sorted with
  | [] => [e]
  | e' :: rest =>
      if leb e.1 e'.1 then e :: e' :: rest else e' :: insert_key leb e rest
  end.

Definition sort_index {K V} (leb : K → K → bool) (tbl : list (K * V)) : list (K * V) :=
  foldr (insert_key leb) [] tbl.

(** [df.groupby(key)[value].sum()], keys of type [K] ordered by [leb]. *)
Definition groupby_sum {K} `{EqDecision K} (leb : K → K → bool)
    (rows : list (K * option Qc)) : list (K * Qc) :=
  sort_index leb (group_sum rows).

(** [sorted(...)] on a list of keys. *)
Fixpoint insert_sorted {K} (leb : K → K → bool) (k : K) (sorted : list K) : list K :=
  match sorted with
  | [] => [k]
  | k' :: rest => if leb k k' then k :: k' :: rest else k' :: insert_sorted leb k rest
  end.

Definition sorted {K} (leb : K → K → bool) (l : list K) : list K :=
  foldr (insert_sorted leb) [] l.

(** Two decimal digits, zero padded. *)
Definition digit_char (n : nat) : ascii := ascii_of_nat (48 + n mod 10).

Definition pad2 (n : nat) : string :=
  String (digit_char (n / 10)) (String (digit_char n) EmptyString).

Definition pad4 (n : nat) : string :=
  (pad2 (n / 100) +:+ pad2 (n mod 100))%string.

(** [dt.to_period("M")] on one cell; NaT stays NaT. *)
Definition to_period (t : option Timestamp) : option Period :=
  (λ t, mkPeriod (year t) (month t)) <$> t.

(** [str] of a monthly period: year, dash, month ("2010-12"); of NaT: "NaT". *)
Definition period_str (p : option Period) : string :=
  match p with
  | Some p => (pad4 (pyear p) +:+ "-" +:+ pad2 (pmonth p))%string
  | None => "NaT"%string
  end.

(** What [pd.to_datetime] uses of its date library: the format it guesses
    from one string ([None] when it recognises none), the strict parser
    of a format, and the lenient parser it falls back on.  A parser
    returns [None] where the library raises. *)
Record DateLibrary := mkDateLibrary {
  guess_datetime_format : string → option string;
  strptime : string → string → option Timestamp;
  dateutil_parse : string → option Timestamp
}.

Section array_to_datetime.

(** The parser the column is read with. *)
Variable parse_datetime : string → option Timestamp.

(** One cell: a missing cell becomes NaT. *)
Definition to_datetime_cell (c : option string) : result (option Timestamp) :=
  match c with
  | None => Ok None
  | Some s =>
      match parse_datetime s with
      | Some t => Ok (Some t)
      | None => Raise (InvalidTimestamp s)
      end
  end.

(** The loop over the cells: raises at the first cell the parser rejects,
    and then returns nothing. *)
Fixpoint array_to_datetime (col : list (option string)) : result (list (option Timestamp)) :=
  match col with
  | [] => Ok []
  | c :: rest =>
      t ← to_datetime_cell c;
      ts ← array_to_datetime rest;
      mret (t :: ts)
  end.

End array_to_datetime.

(** The parser [pd.to_datetime] reads a column with: the strict parser of
    the format guessed from the first present cell, for every cell; the
    lenient parser when no format is guessed. *)
Definition column_parser (lib : DateLibrary) (col : list (option string))
  : string → option Timestamp :=
  match remove_na col with
  | [] => dateutil_parse lib
  | first :: _ =>
      match guess_datetime_format lib first with
      | Some format => strptime lib format
      | None => dateutil_parse lib
      end
  end.

(** [pd.to_datetime] on a column of strings. *)
Definition to_datetime (lib : DateLibrary) (col : list (option string))
  : result (list (option Timestamp)) :=
  array_to_datetime (column_parser lib col) col.

End Pandas.

(** ** Feature derivation, common to both scripts *)

(** [df["Quantity"] * df["UnitPrice"]] on one row: NaN when either cell is
    missing.  The product is exact; [Binary64.line_total] is the product
    as the machine rounds it. *)
Definition line_total (q : option Z) (p : option Qc) : option Qc :=
  match q, p with
  | Some q, Some p => Some (Q2Qc (inject_Z q) * p)%Qc
  | _, _ => None
  end.

(** The row once the three assignments are done: [t] is the parsed
    [InvoiceDate] cell and [to_month] computes the [Month] cell from it. *)
Definition with_features {M} (to_month : option Timestamp → M)
    (r : Row) (t : option Timestamp) : FeatureRow M :=
  {| fInvoiceNo := InvoiceNo r;
     fDescription := Description r;
     fQuantity := Quantity r;
     fInvoiceDate := t;
     fUnitPrice := UnitPrice r;
     fExtra := Extra r;
     TotalPrice := line_total (Quantity r) (UnitPrice r);
     Month := to_month t |}.

(** The same three assignments on a row that already has the derived
    columns: [pd.to_datetime] leaves a datetime column as it is. *)
Definition with_features_again {M} (to_month : option Timestamp → M)
    (r : FeatureRow M) : FeatureRow M :=
  {| fInvoiceNo := fInvoiceNo r;
     fDescription := fDescription r;
     fQuantity := fQuantity r;
     fInvoiceDate := fInvoiceDate r;
     fUnitPrice := fUnitPrice r;
     fExtra := fExtra r;
     TotalPrice := line_total (fQuantity r) (fUnitPrice r);
     Month := to_month (fInvoiceDate r) |}.

(** ** DS.py: the dashboard *)

Module DS.
Import Pandas.

(** The three KPI numbers, and what one callback run hands to the page. *)
Record Kpis := mkKpis {
  total_revenue : Qc;
  average_sale : option Qc;
  total_orders : nat
}.

Record Dashboard := mkDashboard {
  kpis : Kpis;
  top_products : list (string * nat);
  monthly_sales : list (string * Qc)
}.

(** [load_and_prepare_data]; [csv] is the table [pd.read_csv] returns. *)
Definition load_and_prepare_data (lib : DateLibrary) (csv : list Row)
  : result (list (FeatureRow string)) :=
  let df := drop_duplicates csv in
  let df := dropna df in
  dates ← to_datetime lib (InvoiceDate <$> df);
  mret (zip_with (with_features (λ t, period_str (to_period t))) df dates).

Definition calculate_kpis {M} (df : list (FeatureRow M)) : Kpis :=
  {| total_revenue := sum (TotalPrice <$> df);
     average_sale := mean (TotalPrice <$> df);
     total_orders := nunique (fInvoiceNo <$> df) |}.

(** [months] in [create_dashboard]: the options of the dropdown and its
    initial value. *)
Definition months (df : list (FeatureRow string)) : list string :=
  sorted String.leb (unique (Month <$> df)).

(** [df[df["Month"].isin(selected_months)]]. *)
Definition isin_months (df : list (FeatureRow string)) (selected_months : list string)
  : list (FeatureRow string) :=
  filter (λ r, Month r ∈ selected_months) df.

(** The callback [update_dashboard]: the KPI numbers and the data of the
    two figures. *)
Definition update_dashboard (df : list (FeatureRow string)) (selected_months : list string)
  : Dashboard :=
  let filtered_df := isin_months df selected_months in
  {| kpis := calculate_kpis filtered_df;
     top_products := head 10 (value_counts (fDescription <$> filtered_df));
     monthly_sales :=
       groupby_sum String.leb ((λ r, (Month r, TotalPrice r)) <$> filtered_df) |}.

(** The nearest integer to a non-negative rational, a half going to the
    even neighbour: how a format with a fixed number of decimals rounds. *)
Definition round_half_even (q : Q) : Z :=
  let a := Qnum q in
  let b := Zpos (Qden q) in
  let whole := (a / b)%Z in
  let twice := (2 * (a mod b))%Z in
  if (twice <? b)%Z then whole
  else if (b <? twice)%Z then (whole + 1)%Z
  else if Z.even whole then whole else (whole + 1)%Z.

(** The magnitude of an amount in cents, rounded. *)
Definition cents (x : Qc) : Z := round_half_even (Qabs x * 100).

(** The decimal digits of a number. *)
Definition decimal (n : N) : string := NilEmpty.string_of_uint (N.to_uint n).

(** A comma after every third digit, [digits] being the digits of the whole
    part from the last to the first. *)
Fixpoint group3 (digits : list ascii) : list ascii :=
  match digits with
  | a :: b :: c :: ((_ :: _) as rest) => a :: b :: c :: ","%char :: group3 rest
  | short => short
  end.

Definition thousands (digits : string) : string :=
  string_of_list_ascii (rev (group3 (rev (list_ascii_of_string digits)))).

(** [f"${x:,.2f}"]: two decimals, thousands separated by commas, the sign
    in front of the digits; NaN is written [nan]. *)
Definition format_money (x : option Qc) : string :=
  match x with
  | None => "$nan"
  | Some x =>
      String "$" ((if decide (x < 0)%Qc then "-" else "") +:+
                  thousands (decimal (Z.to_N (cents x / 100))) +:+ "." +:+
                  pad2 (Z.to_nat (cents x mod 100)))
  end%string.

(** [f"{total_orders}"]. *)
Definition format_count (n : nat) : string := decimal (N.of_nat n).

(** The components the callback builds. *)
#[warnings="-register-all"] Inductive Component :=
  | Div (style : list (string * string)) (children : list Component)
  | H2 (text : string) (style : list (string * string))
  | H3 (text : string) (style : list (string * string)).

Definition create_kpi_card (title value : string) : Component :=
  Div [("backgroundColor", "#1E1E1E"); ("padding", "20px"); ("borderRadius", "10px");
       ("width", "30%"); ("textAlign", "center");
       ("boxShadow", "0px 0px 10px rgba(0,0,0,0.5)")]%string
      [H3 title [("color", "#AAAAAA")]%string; H2 value [("color", "#00B5E2")]%string].

(** The list [kpis] of [update_dashboard]: the three cards. *)
Definition kpi_cards (k : Kpis) : list Component :=
  [create_kpi_card "Total Revenue" (format_money (Some (total_revenue k)));
   create_kpi_card "Average Sale" (format_money (average_sale k));
   create_kpi_card "Total Orders" (format_count (total_orders k))]%string.

(** The dropdown of [create_dashboard]: one option per month, label and
    value the month itself, and all of them selected to begin with. *)
Record Dropdown := mkDropdown {
  options : list (string * string);
  value : list string
}.

Definition month_filter (df : list (FeatureRow string)) : Dropdown :=
  {| options := (λ m, (m, m)) <$> months df;
     value := months df |}.

(** [create_dashboard]: the dropdown of the layout, and what the callback
    returns when the page loads, run on the dropdown's initial value. *)
Definition create_dashboard (df : list (FeatureRow string)) : Dropdown * Dashboard :=
  (month_filter df, update_dashboard df (value (month_filter df))).

(** [main], [csv] being the content of "data.csv". *)
Definition main (lib : DateLibrary) (csv : list Row) : result (Dropdown * Dashboard) :=
  df ← load_and_prepare_data lib csv;
  mret (create_dashboard df).

End DS.

(** ** starter package.py: the report *)

Module Starter.
Import Pandas.

Definition clean_data (df : list Row) : list Row :=
  let df := drop_duplicates df in
  let df := dropna df in
  df.

(** A DataFrame object: before and after [prepare_features]. *)
Inductive DataFrame :=
  | Loaded (rows : list Row)
  | Featured (rows : list (FeatureRow (option Period))).

(** The DataFrame objects of the running script, by identity. *)
Definition heap := list DataFrame.
Definition ref := nat.

Section features.

Variable lib : DateLibrary.

(** The three column assignments of [prepare_features], on the content
    of the DataFrame.  Only [pd.to_datetime] can raise, and it is the
    first thing evaluated. *)
Definition assign_features (df : DataFrame) : result DataFrame :=
  match df with
  | Loaded rows =>
      dates ← to_datetime lib (InvoiceDate <$> rows);
      mret (Featured (zip_with (with_features to_period) rows dates))
  | Featured rows =>
      mret (Featured (with_features_again to_period <$> rows))
  end.

(** [prepare_features(df)]: assigns into the object [df] refers to and
    returns [df].  [None] when [df] refers to no object. *)
Definition prepare_features (h : heap) (df : ref) : option (result ref * heap) :=
  match h !! df with
  | None => None
  | Some frame =>
      match assign_features frame with
      | Ok frame' => Some (Ok df, <[df := frame']> h)
      | Raise e => Some (Raise e, h)
      end
  end.

End features.

(** An [int64] result: what is left of a whole number in 64 bits, two's
    complement. *)
Definition int64 (z : Z) : Z := ((z + 2 ^ 63) mod 2 ^ 64 - 2 ^ 63)%Z.

(** [Series.sum()] on an [int64] column: the sum wraps around. *)
Definition sum_int (col : list (option Z)) : Z :=
  int64 (foldr Z.add 0%Z (remove_na col)).

(** [descriptive_analysis]: average sale, top ten descriptions, quantity. *)
Definition descriptive_analysis {M} (df : list (FeatureRow M))
  : option Qc * list (string * nat) * Z :=
  (mean (TotalPrice <$> df),
   head 10 (value_counts (fDescription <$> df)),
   sum_int (fQuantity <$> df)).

Definition period_leb (p q : Period) : bool :=
  (pyear p <? pyear q) || ((pyear p =? pyear q) && (pmonth p <=? pmonth q)).

(** [monthly_sales] in [create_line_chart]: rows whose [Month] is NaT are
    in no group; the index is turned into strings after grouping. *)
Definition create_line_chart (df : list (FeatureRow (option Period))) : list (string * Qc) :=
  let monthly_sales :=
    groupby_sum period_leb (omap (λ r, (λ p, (p, TotalPrice r)) <$> Month r) df) in
  prod_map (λ p, period_str (Some p)) id <$> monthly_sales.

(** [create_bar_chart]: the bar plot of an empty series raises; otherwise
    the figure is saved and its file name returned. *)
Definition create_bar_chart (orders_per_category : list (string * nat)) : result string :=
  match orders_per_category with
  | [] => Raise IndexError
  | _ :: _ => Ok "bar_chart.png"%string
  end.

(** What [main] hands to the charts and to [generate_pdf_report]. *)
Record Report := mkReport {
  average_sales : option Qc;
  orders_per_category : list (string * nat);
  total_quantity : Z;
  monthly_sales : list (string * Qc)
}.

(** The stages of [main] after [prepare_features], on the rows of the
    table: the figures, the bar chart, the line chart, the report. *)
Definition report (rows : list (FeatureRow (option Period))) : result Report :=
  let '(average, top, quantity) := descriptive_analysis rows in
  bar_chart_path ← create_bar_chart top;
  mret {| average_sales := average;
          orders_per_category := top;
          total_quantity := quantity;
          monthly_sales := create_line_chart rows |}.

(** The same stages on the table [df] of the store: they read the table
    and assign nothing into it.  [None] stands for a script that reads the
    derived columns of a table that has none. *)
Definition analyse_and_report (h : heap) (df : ref) : option (result Report * heap) :=
  match h !! df with
  | Some (Featured rows) => Some (report rows, h)
  | _ => None
  end.

(** [main], [csv] being the content of "data.csv": [clean_data] returns a
    new table, which [prepare_features] then updates in place; the figures
    are computed from that table. *)
Definition main (lib : DateLibrary) (csv : list Row) : option (result Report) :=
  let h := [Loaded csv; Loaded (clean_data csv)] in
  match prepare_features lib h 1 with
  | Some (Ok df, h') => fst <$> analyse_and_report h' df
  | Some (Raise e, _) => Some (Raise e)
  | None => None
  end.

End Starter.

(** ** The amounts in binary64 *)

(** The columns of amounts as the machine computes them: [float64] cells
    are IEEE 754 binary64 values, every operation rounds its exact result
    to the nearest value, ties to even. *)
Module Binary64.
Import Pandas.

Definition float := spec_float.

Definition add : float → float → float := SFadd 53 1024.
Definition sub : float → float → float := SFsub 53 1024.
Definition mul : float → float → float := SFmul 53 1024.
Definition div : float → float → float := SFdiv 53 1024.

Definition zero : float := S754_zero false.

Definition is_nan (x : float) : bool :=
  match x with
  | S754_nan => true
  | _ => false
  end.

(** An [int64] as a [float64]. *)
Definition of_int (z : Z) : float := binary_normalize 53 1024 z 0 false.

(** The decimal [n / 10 ^ d] of a file as [read_csv] stores it: the
    nearest binary64 value. *)
Definition decimal (n : Z) (d : nat) : float := div (of_int n) (of_int (10 ^ Z.of_nat d)).

Definition pow2 (e : Z) : Q := Qpower 2 e.

Definition signed (s : bool) (m : Z) : Z := if s then (- m)%Z else m.

(** The number a finite value stands for; none for NaN and the infinities. *)
Definition value (x : float) : option Q :=
  match x with
  | S754_zero _ => Some 0%Q
  | S754_finite s m e => Some (inject_Z (signed s (Z.pos m)) * pow2 e)%Q
  | _ => None
  end.


(** [df["Quantity"] * df["UnitPrice"]] on one row: the [int64] quantity is
    converted, then multiplied. *)
Definition line_total (q : Z) (p : float) : float := mul (of_int q) p.

(** numpy's sum of a block: eight running sums over the values taken
    eight at a time, added up in pairs, then the values left over. *)
Fixpoint add_lanes (r a : list float) (n : nat) : list float * list float :=
  match n with
  | O => (r, a)
  | S n' =>
      if (8 <=? length a)%nat then add_lanes (zip_with add r (take 8 a)) (drop 8 a) n'
      else (r, a)
  end.

Definition sum_lanes (r : list float) : float :=
  match r with
  | [r0; r1; r2; r3; r4; r5; r6; r7] =>
      add (add (add r0 r1) (add r2 r3)) (add (add r4 r5) (add r6 r7))
  | _ => S754_nan
  end.

(** numpy's pairwise summation: fewer than eight values are added in
    order; up to 128 are added as a block; more are split in two halves,
    the first a multiple of eight long. *)
Fixpoint pairwise_sum (fuel : nat) (a : list float) : float :=
  let n := length a in
  if (n <? 8)%nat then foldl add zero a
  else if (n <=? 128)%nat then
    let '(r, rest) := add_lanes (take 8 a) (drop 8 a) n in
    foldl add (sum_lanes r) rest
  else
    match fuel with
    | O => S754_nan
    | S fuel' =>
        let n2 := (n / 2 - (n / 2) mod 8)%nat in
        add (pairwise_sum fuel' (take n2 a)) (pairwise_sum fuel' (drop n2 a))
    end.

(** [Series.sum()], [skipna=True]: a NaN counts as 0, and the sum starts
    from 0. *)
Definition sum (col : list float) : float :=
  add zero (pairwise_sum (length col) ((λ x, if is_nan x then zero else x) <$> col)).

(** One step of the compensated summation of [groupby(...).sum()]: the
    running sum and the error carried over. *)
Definition kahan_add (acc : float * float) (v : float) : float * float :=
  let y := sub v acc.2 in
  let t := add acc.1 y in
  let c := sub (sub t acc.1) y in
  (t, if is_nan c then zero else c).

(** The accumulator of [groupby(...).sum()]: one compensated sum per key,
    keys in order of first appearance; a NaN adds nothing to its group. *)
Fixpoint add_into {K} `{EqDecision K} (tbl : list (K * (float * float))) (k : K) (v : float)
  : list (K * (float * float)) :=
  match tbl with
  | [] => [(k, if is_nan v then (zero, zero) else kahan_add (zero, zero) v)]
  | (k', acc) :: rest =>
      if decide (k = k') then (k', if is_nan v then acc else kahan_add acc v) :: rest
      else (k', acc) :: add_into rest k v
  end.

Definition group_sum {K} `{EqDecision K} (rows : list (K * float)) : list (K * float) :=
  prod_map id fst <$> foldl (λ tbl kv, add_into tbl kv.1 kv.2) [] rows.

(** [df.groupby(key)[value].sum()], the groups sorted by key. *)
Definition groupby_sum {K} `{EqDecision K} (leb : K → K → bool) (rows : list (K * float))
  : list (K * float) :=
  sort_index leb (group_sum rows).

(** A row of the dashboard's table, as far as the amounts read it. *)
Record Line := mkLine {
  line_month : string;
  line_quantity : Z;
  line_price : float
}.

(** The [TotalPrice] cell of a row. *)
Definition total_price (r : Line) : float := line_total (line_quantity r) (line_price r).

(** [total_revenue] in [calculate_kpis]. *)
Definition total_revenue (df : list Line) : float := sum (total_price <$> df).

(** [monthly_sales] in [update_dashboard]. *)
Definition monthly_sales (df : list Line) : list (string * float) :=
  groupby_sum String.leb ((λ r, (line_month r, total_price r)) <$> df).

End Binary64.

(** ** A date library to run the pipeline on *)

(** ISO dates ["YYYY-MM-DD"], the format ["%Y-%m-%d"]; a date without a
    time is that day at midnight. *)
Module IsoDate.

Definition digit (c : ascii) : option nat :=
  let n := nat_of_ascii c in
  if (48 <=? n) && (n <=? 57) then Some (n - 48) else None.

Fixpoint number (acc : nat) (s : string) : option nat :=
  match s with
  | EmptyString => Some acc
  | String c rest =>
      match digit c with
      | Some d => number (10 * acc + d) rest
      | None => None
      end
  end.

Definition leap (y : nat) : bool :=
  ((y mod 4 =? 0) && negb (y mod 100 =? 0)) || (y mod 400 =? 0).

Definition days_in (y m : nat) : nat :=
  match m with
  | 2 => if leap y then 29 else 28
  | 4 | 6 | 9 | 11 => 30
  | _ => 31
  end.

Definition parse (s : string) : option Timestamp :=
  if negb (String.length s =? 10) then None else
  if negb (bool_decide (String.get 4 s = Some "-"%char)) then None else
  if negb (bool_decide (String.get 7 s = Some "-"%char)) then None else
  match number 0 (substring 0 4 s), number 0 (substring 5 2 s), number 0 (substring 8 2 s) with
  | Some y, Some m, Some d =>
      if (1 <=? m) && (m <=? 12) && (1 <=? d) && (d <=? days_in y m)
      then Some (mkTimestamp y m d 0 0)
      else None
  | _, _, _ => None
  end.

End IsoDate.

(** Dates written month first, ["MM/DD/YYYY"], the format ["%m/%d/%Y"]. *)
Module UsDate.

Definition parse (s : string) : option Timestamp :=
  if negb (String.length s =? 10) then None else
  if negb (bool_decide (String.get 2 s = Some "/"%char)) then None else
  if negb (bool_decide (String.get 5 s = Some "/"%char)) then None else
  match IsoDate.number 0 (substring 6 4 s), IsoDate.number 0 (substring 0 2 s),
        IsoDate.number 0 (substring 3 2 s) with
  | Some y, Some m, Some d =>
      if (1 <=? m) && (m <=? 12) && (1 <=? d) && (d <=? IsoDate.days_in y m)
      then Some (mkTimestamp y m d 0 0)
      else None
  | _, _, _ => None
  end.

End UsDate.

(** A library that knows these two formats: it guesses the one a string is
    written in, parses strictly with a format, and leniently with either. *)
Definition iso_and_us : Pandas.DateLibrary :=
  {| Pandas.guess_datetime_format s :=
       match IsoDate.parse s, UsDate.parse s with
       | Some _, _ => Some "%Y-%m-%d"
       | None, Some _ => Some "%m/%d/%Y"
       | None, None => None
       end;
     Pandas.strptime format s :=
       if String.eqb format "%Y-%m-%d" then IsoDate.parse s
       else if String.eqb format "%m/%d/%Y" then UsDate.parse s
       else None;
     Pandas.dateutil_parse s :=
       match IsoDate.parse s with
       | Some t => Some t
       | None => UsDate.parse s
       end |}%string.

(** ** Vocabulary of the statements *)

Import Pandas.

(** The plain sum of a list of amounts. *)
Definition total (xs : list Qc) : Qc := foldr Qcplus 0%Qc xs.

(** How many times [x] occurs in a column. *)
Definition occurrences {A} `{EqDecision A} (x : A) (col : list A) : nat :=
  length (filter (λ y, y = x) col).

(** The order identifiers that occur in a table, as a set. *)
Definition order_ids {M} (df : list (FeatureRow M)) : gset string :=
  list_to_set (omap fInvoiceNo df).

(** The snapshot and the aggregates the specification promises for the
    empty subset, and what the code computes there: the average is NaN. *)
Definition zeroed_kpis : DS.Kpis :=
  DS.mkKpis 0%Qc (Some 0%Qc) 0.

Definition empty_kpis : DS.Kpis :=
  DS.mkKpis 0%Qc None 0.

(** Descending order of the counts of two entries of [value_counts]. *)
Definition count_ge {A} (e1 e2 : A * nat) : Prop := e2.2 ≤ e1.2.

(** What the specification asks of the top-items series [top] computed from
    the description column [descs] of a subset: at most ten entries, one per
    description, each with the number of rows that carry it; counts
    descending; among equal counts the description met first in the subset
    comes first; and no description left out has more rows than one kept. *)
Record top_items_of (descs : list string) (top : list (string * nat)) : Prop := {
  top_length : length top ≤ 10;
  top_groups : NoDup top.*1;
  top_counts : ∀ d n, (d, n) ∈ top → n = occurrences d descs ∧ 0 < n;
  top_descending : StronglySorted count_ge top;
  top_ties : ∀ e1 e2, [e1; e2] `sublist_of` top → e1.2 = e2.2 →
    ∃ pre post, descs = pre ++ (e1.1 :: post) ∧ (e1.1 ∉ pre) ∧ (e2.1 ∉ pre);
  top_is_top : ∀ d, d ∈ descs →
    d ∈ top.*1 ∨ (length top = 10 ∧ ∀ e, e ∈ top → occurrences d descs ≤ e.2)
}.

(** The sum of the values that the rows of key [k] carry. *)
Definition group_total {K} `{EqDecision K} (k : K) (rows : list (K * option Qc)) : Qc :=
  sum ((filter (λ kv, kv.1 = k) rows).*2).

(** Keys of two entries in strictly ascending lexicographic order. *)
Definition key_lt {V} (e1 e2 : string * V) : Prop := String.ltb e1.1 e2.1 = true.

(** What the specification asks of the period-totals series computed from
    a subset [df]: one entry per month that occurs in the subset, each the
    sum of the line totals of the rows of that month, months ascending. *)
Record period_totals_of (df : list (FeatureRow string)) (series : list (string * Qc))
  : Prop := {
  periods_once : NoDup series.*1;
  periods_present : ∀ m, m ∈ series.*1 ↔ m ∈ Month <$> df;
  periods_sum : ∀ m s, (m, s) ∈ series →
    s = sum (TotalPrice <$> filter (λ r, Month r = m) df);
  periods_ascending : StronglySorted key_lt series
}.

(** Keys of two entries in ascending order, [leb] being the order. *)
Definition key_le {K V} (leb : K → K → bool) (e1 e2 : K * V) : Prop :=
  leb e1.1 e2.1 = true.

(** Quantity times unit price of one row, as numbers (0 for a missing cell). *)
Definition quantity_times_price {M} (r : FeatureRow M) : Qc :=
  (Q2Qc (inject_Z (default 0%Z (fQuantity r))) * default 0%Qc (fUnitPrice r))%Qc.

(** The plain sum of quantity times unit price over the rows of a table. *)
Definition plain_revenue {M} (df : list (FeatureRow M)) : Qc :=
  total (quantity_times_price <$> df).

(** A derived row whose quantity and price are present and whose line
    total is their product. *)
Definition priced {M} (r : FeatureRow M) : Prop :=
  ∃ q p, fQuantity r = Some q ∧ fUnitPrice r = Some p ∧
         TotalPrice r = Some (Q2Qc (inject_Z q) * p)%Qc.

(** A table with one sale and one larger return in the same month. *)
Definition sale_and_return : list Row :=
  [ mkRow (Some "536365") (Some "WHITE METAL LANTERN") (Some 2%Z)
      (Some "2010-12-01") (Some (Q2Qc (3 # 1))) [];
    mkRow (Some "C536379") (Some "WHITE METAL LANTERN") (Some (-6)%Z)
      (Some "2010-12-01") (Some (Q2Qc (3 # 1))) [] ]%string.

(** A timestamp cell that is present and that the parser rejects. *)
Definition unparseable (parse_datetime : string → option Timestamp) (c : option string) : Prop :=
  ∃ s, c = Some s ∧ parse_datetime s = None.

(** A timestamp cell that is present and unparseable as a date: no parser
    of the library reads it, in any format. *)
Definition not_a_date (lib : DateLibrary) (c : option string) : Prop :=
  ∃ s, c = Some s ∧ dateutil_parse lib s = None ∧ ∀ format, strptime lib format s = None.

(** The parser [pd.to_datetime] reads the timestamps of a table with. *)
Definition timestamp_parser (lib : DateLibrary) (rows : list Row) : string → option Timestamp :=
  column_parser lib (InvoiceDate <$> rows).

(** [r'] is the row [r] with its features: the original cells other than
    the timestamp are those of [r], the timestamp is the parsed one, the
    line total is quantity times price and the month is that of the
    timestamp. *)
Definition derived_from {M} (parse_datetime : string → option Timestamp)
    (to_month : option Timestamp → M) (r : Row) (r' : FeatureRow M) : Prop :=
  fInvoiceNo r' = InvoiceNo r ∧ fDescription r' = Description r ∧
  fQuantity r' = Quantity r ∧ fUnitPrice r' = UnitPrice r ∧ fExtra r' = Extra r ∧
  to_datetime_cell parse_datetime (InvoiceDate r) = Ok (fInvoiceDate r') ∧
  TotalPrice r' = line_total (Quantity r) (UnitPrice r) ∧
  Month r' = to_month (fInvoiceDate r').

(** The month cell of the dashboard's table. *)
Definition month_str (t : option Timestamp) : string := period_str (to_period t).




(** Two dates of December 2010, the second written month first. *)
Definition dates_in_two_formats : list Row :=
  [ mkRow (Some "536365") (Some "WHITE METAL LANTERN") (Some 2%Z)
      (Some "2010-12-01") (Some (Q2Qc (3 # 1))) [];
    mkRow (Some "536366") (Some "HAND WARMER UNION JACK") (Some 6%Z)
      (Some "12/02/2010") (Some (Q2Qc (2 # 1))) [] ]%string.

#[global] Instance unparseable_dec parse_datetime c : Decision (unparseable parse_datetime c).
Proof.
  refine (match c with
          | Some s => cast_if (decide (parse_datetime s = None))
          | None => right _
          end); unfold unparseable.
  - by exists s.
  - intros (s' & [= <-] & Hs). done.
  - intros (s' & Hs & _). discriminate.
Defined.

(** Two lines of one order, as rows of the dashboard's table. *)
Definition lantern_line : FeatureRow string :=
  mkFeatureRow (Some "536365") (Some "WHITE METAL LANTERN") (Some 3%Z)
    (Some (mkTimestamp 2010 12 1 8 26)) (Some (Q2Qc (2 # 1))) []
    (Some (Q2Qc (6 # 1))) "2010-12".

Definition heart_line : FeatureRow string :=
  mkFeatureRow (Some "536365") (Some "CREAM CUPID HEARTS COAT HANGER") (Some 1%Z)
    (Some (mkTimestamp 2010 12 1 8 26)) (Some (Q2Qc (5 # 1))) []
    (Some (Q2Qc (5 # 1))) "2010-12".

(** A file with a repeated row and a row without a price. *)
Definition file_with_duplicate_and_gap : list Row :=
  [ mkRow (Some "536365") (Some "WHITE METAL LANTERN") (Some 3%Z)
      (Some "2010-12-01") (Some (Q2Qc (2 # 1))) [Some "17850"];
    mkRow (Some "536365") (Some "WHITE METAL LANTERN") (Some 3%Z)
      (Some "2010-12-01") (Some (Q2Qc (2 # 1))) [Some "17850"];
    mkRow (Some "536366") (Some "HAND WARMER UNION JACK") (Some 6%Z)
      (Some "2010-12-02") None [Some "17850"];
    mkRow (Some "536367") (Some "ASSORTED COLOUR BIRD ORNAMENT") (Some 2%Z)
      (Some "2011-01-04") (Some (Q2Qc (10 # 1))) [Some "13047"] ]%string.

(** One monthly period strictly before another. *)
Definition period_lt (p q : Period) : Prop :=
  pyear p < pyear q ∨ (pyear p = pyear q ∧ pmonth p < pmonth q).

(** A period whose year has at most four digits and whose month has at
    most two, as every period of a [datetime64] timestamp has. *)
Definition four_digit_year (p : Period) : Prop :=
  pyear p / 100 < 100 ∧ pmonth p < 100.

Definition four_digit_cell (m : option Period) : Prop :=
  match m with
  | Some p => four_digit_year p
  | None => True
  end.

#[global] Instance four_digit_cell_dec m : Decision (four_digit_cell m).
Proof. destruct m; unfold four_digit_cell, four_digit_year; apply _. Defined.

(** The index of the report's series after [astype(str)]. *)
Definition month_name (p : Period) : string := period_str (Some p).

(** What the specification asks of the period-totals series of the report,
    computed from a table [df] whose [Month] cells are periods: the series
    is the list of groups, one per period that occurs in the table, each
    with the sum of the line totals of its rows, in chronological order,
    the period written as a string; with four-digit years the strings are
    distinct and in strictly ascending lexicographic order. *)
Definition report_totals_of (df : list (FeatureRow (option Period)))
    (series : list (string * Qc)) : Prop :=
  (∃ groups : list (Period * Qc),
     series = prod_map month_name id <$> groups ∧
     NoDup groups.*1 ∧
     (∀ p, p ∈ groups.*1 ↔ Some p ∈ Month <$> df) ∧
     (∀ p s, (p, s) ∈ groups →
        s = sum (TotalPrice <$> filter (λ r, Month r = Some p) df)) ∧
     StronglySorted (λ e1 e2, period_lt e1.1 e2.1) groups) ∧
  (Forall (λ r, four_digit_cell (Month r)) df →
   NoDup series.*1 ∧ StronglySorted key_lt series).

(** The report's table for a sale in January 2011 after two in December
    2010. *)
Definition report_rows : list (FeatureRow (option Period)) :=
  [ mkFeatureRow (Some "536365") (Some "WHITE METAL LANTERN") (Some 3%Z)
      (Some (mkTimestamp 2010 12 1 8 26)) (Some (Q2Qc (2 # 1))) []
      (Some (Q2Qc (6 # 1))) (Some (mkPeriod 2010 12));
    mkFeatureRow (Some "540001") (Some "HAND WARMER UNION JACK") (Some 2%Z)
      (Some (mkTimestamp 2011 1 4 10 0)) (Some (Q2Qc (10 # 1))) []
      (Some (Q2Qc (20 # 1))) (Some (mkPeriod 2011 1));
    mkFeatureRow (Some "536366") (Some "CREAM CUPID HEARTS COAT HANGER") (Some 1%Z)
      (Some (mkTimestamp 2010 12 2 9 0)) (Some (Q2Qc (5 # 1))) []
      (Some (Q2Qc (5 # 1))) (Some (mkPeriod 2010 12)) ]%string.

(** The number of rows of a table, as a number to divide by. *)
Definition row_count {M} (df : list (FeatureRow M)) : Qc :=
  Q2Qc (inject_Z (Z.of_nat (length df))).

(** The dashboard's first view and the report show the same figures. *)
Definition same_figures (view : DS.Dropdown * DS.Dashboard) (report : Starter.Report) : Prop :=
  Starter.average_sales report = DS.average_sale (DS.kpis view.2) ∧
  Starter.orders_per_category report = DS.top_products view.2 ∧
  Starter.monthly_sales report = DS.monthly_sales view.2.

(** A library whose timestamps have years of at most four digits and
    months of at most two, as [pd.to_datetime]'s have. *)
Definition four_digit_years (lib : DateLibrary) : Prop :=
  ∀ s t, (dateutil_parse lib s = Some t ∨ ∃ format, strptime lib format s = Some t) →
         year t / 100 < 100 ∧ month t < 100.

(** Reading an amount back from its text: a dollar sign, an optional minus
    sign, the whole part in comma-separated groups (the first of one to
    three digits, the others of three), a point and two digits.  The
    result is the sign and the number of cents. *)
Fixpoint ungroup3 (chars : list ascii) : option (list ascii) :=
  match chars with
  | a :: b :: c :: d :: rest =>
      if Ascii.eqb d "," then
        match rest with
        | [] => None
        | _ => (λ r, a :: b :: c :: r) <$> ungroup3 rest
        end
      else None
  | short => Some short
  end.

Fixpoint split_at_point (s : string) : option (string * string) :=
  match s with
  | EmptyString => None
  | String c rest =>
      if Ascii.eqb c "." then Some (EmptyString, rest)
      else (λ p : string * string, (String c p.1, p.2)) <$> split_at_point rest
  end.

Definition read_digits (s : string) : option N :=
  N.of_uint <$> NilZero.uint_of_string s.

Definition strip_sign (s : string) : bool * string :=
  match s with
  | String c body => if Ascii.eqb c "-" then (true, body) else (false, s)
  | EmptyString => (false, s)
  end.

Definition read_money (s : string) : option (bool * Z) :=
  match s with
  | String c rest =>
      if Ascii.eqb c "$" then
        let signed := strip_sign rest in
        p ← split_at_point signed.2;
        digits ← ungroup3 (rev (list_ascii_of_string p.1));
        whole ← read_digits (string_of_list_ascii (rev digits));
        frac ← (if String.length p.2 =? 2 then read_digits p.2 else None);
        Some (signed.1, (Z.of_N whole * 100 + Z.of_N frac)%Z)
      else None
  | EmptyString => None
  end.

(** A character that is neither the point nor the minus sign. *)
Definition plain (c : ascii) : Prop := c ≠ "."%char ∧ c ≠ "-"%char.

(** The title and the value a card shows. *)
Definition card_texts (card : DS.Component) : option (string * string) :=
  match card with
  | DS.Div _ [DS.H3 title _; DS.H2 value _] => Some (title, value)
  | _ => None
  end.




(** * Properties *)

Create HintDb frame discriminated.

(** ** Columns: [unique], [remove_na], [sum] *)

Section unique_facts.
Context {A : Type} `{EqDecision A}.

Lemma elem_of_unique_from (seen col : list A) (x : A) :
  x ∈ unique_from seen col ↔ x ∈ col ∧ (x ∉ seen).
Proof.
  revert seen. induction col as [|y col IH]; intros seen; simpl.
  - split; [intros Hx; inversion Hx | intros [Hx _]; inversion Hx].
  - case_bool_decide as Hy.
    + rewrite IH, elem_of_cons. split; [tauto|].
      intros [[->|Hx] Hs]; [contradiction | tauto].
    + rewrite !elem_of_cons, IH, elem_of_cons. split.
      * intros [->|[Hx Hn]]; [tauto|]. split; [tauto|]. intros Hs. apply Hn. tauto.
      * intros [[->|Hx] Hs]; [tauto|].
        destruct (decide (x = y)) as [->|Hne]; [tauto|]. right. split; [done|].
        intros [?|?]; done.
Qed.

Lemma NoDup_unique_from (seen col : list A) : NoDup (unique_from seen col).
Proof.
  revert seen. induction col as [|y col IH]; intros seen; simpl.
  - constructor.
  - case_bool_decide as Hy; [apply IH|].
    constructor; [|apply IH].
    rewrite elem_of_unique_from, elem_of_cons. tauto.
Qed.

Lemma elem_of_unique (col : list A) (x : A) : x ∈ unique col ↔ x ∈ col.
Proof.
  unfold unique. rewrite elem_of_unique_from. split; [tauto|].
  intros Hx. split; [done|]. apply not_elem_of_nil.
Qed.

Lemma NoDup_unique (col : list A) : NoDup (unique col).
Proof. apply NoDup_unique_from. Qed.

Lemma unique_from_sublist (seen col : list A) :
  (unique_from seen col) `sublist_of` col.
Proof.
  revert seen. induction col as [|y col IH]; intros seen; simpl; [constructor|].
  case_bool_decide; [apply sublist_cons | apply sublist_skip]; apply IH.
Qed.

(** The order of [unique] is the order of first appearance: when [x]
    comes before [y] in it, [x] occurs in the column at a place before
    which [y] has not occurred. *)
Lemma unique_from_first_seen (seen col : list A) (x y : A) :
  [x; y] `sublist_of` (unique_from seen col) →
  ∃ pre post, col = pre ++ (x :: post) ∧ (x ∉ pre) ∧ (y ∉ pre).
Proof.
  revert seen. induction col as [|z col IH]; intros seen; simpl.
  - intros Hs. apply sublist_nil_r in Hs. discriminate.
  - case_bool_decide as Hz.
    + intros Hs.
      assert (Hx : x ∈ unique_from seen col).
      { eapply elem_of_sublist; [|exact Hs]. set_solver. }
      assert (Hy : y ∈ unique_from seen col).
      { eapply elem_of_sublist; [|exact Hs]. set_solver. }
      apply elem_of_unique_from in Hx as [_ Hx], Hy as [_ Hy].
      destruct (IH _ Hs) as (pre & post & -> & Hp & Hq).
      exists (z :: pre), post. split; [done|].
      rewrite !not_elem_of_cons. repeat split; try done; intros ->; done.
    + intros Hs. apply sublist_cons_r in Hs as [Hs | (l' & Heq & Hs)].
      * assert (Hx : x ∈ unique_from (z :: seen) col).
        { eapply elem_of_sublist; [|exact Hs]. set_solver. }
        assert (Hy : y ∈ unique_from (z :: seen) col).
        { eapply elem_of_sublist; [|exact Hs]. set_solver. }
        apply elem_of_unique_from in Hx as [_ Hx], Hy as [_ Hy].
        destruct (IH _ Hs) as (pre & post & -> & Hp & Hq).
        exists (z :: pre), post. split; [done|].
        rewrite !not_elem_of_cons. rewrite not_elem_of_cons in Hx, Hy. tauto.
      * injection Heq as -> <-.
        exists [], col. split; [done|]. split; apply not_elem_of_nil.
Qed.

End unique_facts.

Lemma if_bool_decide_ext {B} (P Q : Prop) `{Decision P, Decision Q} (a b : B) :
  (P ↔ Q) → (if bool_decide P then a else b) = (if bool_decide Q then a else b).
Proof. intros HPQ. by rewrite (bool_decide_ext P Q HPQ). Qed.

Lemma sublist_filter_mono {B} (P : B → Prop) `{∀ x, Decision (P x)} (l1 l2 : list B) :
  l1 `sublist_of` l2 → (filter P l1) `sublist_of` (filter P l2).
Proof.
  induction 1 as [|x l1 l2 Hs IH|x l1 l2 Hs IH]; [done| |].
  - rewrite !(filter_cons _ x). destruct (decide (P x)); [by constructor | exact IH].
  - rewrite (filter_cons _ x). destruct (decide (P x)); [by constructor | exact IH].
Qed.

Lemma remove_na_app {A} (l1 l2 : list (option A)) :
  remove_na (l1 ++ l2) = remove_na l1 ++ remove_na l2.
Proof. unfold remove_na. apply omap_app. Qed.

Lemma elem_of_remove_na {A} (col : list (option A)) (x : A) :
  x ∈ remove_na col ↔ Some x ∈ col.
Proof.
  unfold remove_na. rewrite list_elem_of_omap. split.
  - intros (o & Ho & Hx). simpl in Hx. by subst.
  - intros Hx. by exists (Some x).
Qed.

Lemma length_remove_na {A} (col : list (option A)) :
  length (remove_na col) ≤ length col.
Proof.
  induction col as [|[x|] col IH]; simpl; lia.
Qed.

Lemma NoDup_remove_na {A} (col : list (option A)) :
  NoDup col → NoDup (remove_na col).
Proof.
  induction 1 as [|o col Hn Hd IH]; simpl; [constructor|].
  destruct o as [x|]; simpl; [|exact IH].
  constructor; [|exact IH]. by rewrite elem_of_remove_na.
Qed.

Lemma total_app (xs ys : list Qc) : total (xs ++ ys) = (total xs + total ys)%Qc.
Proof.
  unfold total. induction xs as [|x xs IH]; simpl; [ring|]. rewrite IH. ring.
Qed.

Lemma sum_nil : sum [] = 0%Qc.
Proof. reflexivity. Qed.

Lemma sum_cons (v : option Qc) (col : list (option Qc)) :
  sum (v :: col) = (default 0%Qc v + sum col)%Qc.
Proof. unfold sum. destruct v; simpl; [done | ring]. Qed.

Lemma sum_app (c1 c2 : list (option Qc)) : sum (c1 ++ c2) = (sum c1 + sum c2)%Qc.
Proof. unfold sum. rewrite remove_na_app. apply total_app. Qed.

(** ** [pd.to_datetime] and the derived columns *)

Section array_to_datetime_facts.
Variable parse_datetime : string → option Timestamp.

Lemma to_datetime_cell_raise (c : option string) :
  (∃ e, to_datetime_cell parse_datetime c = Raise e) ↔ unparseable parse_datetime c.
Proof.
  unfold unparseable, to_datetime_cell. destruct c as [s|].
  - destruct (parse_datetime s) eqn:Hp; split.
    + intros [e He]. discriminate.
    + intros (s' & [= <-] & Hs). congruence.
    + intros _. by exists s.
    + intros _. by eexists.
  - split; [intros [e He]; discriminate | intros (s & Hs & _); discriminate].
Qed.

Lemma array_to_datetime_cons (c : option string) (col : list (option string)) :
  array_to_datetime parse_datetime (c :: col) =
  match to_datetime_cell parse_datetime c with
  | Ok t =>
      match array_to_datetime parse_datetime col with
      | Ok ts => Ok (t :: ts)
      | Raise e => Raise e
      end
  | Raise e => Raise e
  end.
Proof. reflexivity. Qed.

Lemma array_to_datetime_Ok (col : list (option string)) (ts : list (option Timestamp)) :
  array_to_datetime parse_datetime col = Ok ts ↔
  Forall2 (λ c t, to_datetime_cell parse_datetime c = Ok t) col ts.
Proof.
  revert ts. induction col as [|c col IH]; intros ts.
  - simpl. split.
    + intros [= <-]. constructor.
    + intros Hf. by inversion Hf.
  - rewrite array_to_datetime_cons. split.
    + destruct (to_datetime_cell parse_datetime c) as [t|e] eqn:Hc; [|done].
      destruct (array_to_datetime parse_datetime col) as [ts'|e] eqn:Hcol; [|done].
      intros [= <-]. constructor; [done|]. by apply IH.
    + intros Hf. inversion Hf as [|c' t col' ts' Hc Hcol]; subst.
      rewrite Hc. apply IH in Hcol. by rewrite Hcol.
Qed.

Lemma array_to_datetime_raise (col : list (option string)) :
  (∃ e, array_to_datetime parse_datetime col = Raise e) ↔
  Exists (unparseable parse_datetime) col.
Proof.
  induction col as [|c col IH].
  - simpl. split; [intros [e He]; discriminate | intros He; inversion He].
  - rewrite array_to_datetime_cons, Exists_cons, <- IH, <- to_datetime_cell_raise.
    destruct (to_datetime_cell parse_datetime c) as [t|e] eqn:Hc.
    + destruct (array_to_datetime parse_datetime col) as [ts'|e] eqn:Hcol.
      * split; [intros [e He]; discriminate|].
        intros [[e He]|[e He]]; discriminate.
      * split; [intros _; right; by eexists | intros _; by eexists].
    + split; [intros _; left; by eexists | intros _; by eexists].
Qed.

(** The loop returns or raises, and raises exactly when the parser
    rejects a cell. *)
Lemma array_to_datetime_total (col : list (option string)) :
  ¬ Exists (unparseable parse_datetime) col →
  ∃ ts, array_to_datetime parse_datetime col = Ok ts.
Proof.
  intros Hno. destruct (array_to_datetime parse_datetime col) as [ts|e] eqn:Hcol; [by eexists|].
  exfalso. apply Hno, array_to_datetime_raise. by eexists.
Qed.

(** What the loop raises is the rejected cell, as an invalid timestamp. *)
Lemma array_to_datetime_error (col : list (option string)) (e : error) :
  array_to_datetime parse_datetime col = Raise e →
  ∃ s, e = InvalidTimestamp s ∧ Some s ∈ col ∧ parse_datetime s = None.
Proof.
  induction col as [|c col IH]; [done|]. rewrite array_to_datetime_cons.
  destruct (to_datetime_cell parse_datetime c) as [t|e'] eqn:Hc.
  - destruct (array_to_datetime parse_datetime col) as [ts|e'']; [done|].
    intros [= ->]. destruct (IH eq_refl) as (s & -> & Hs & Hp).
    exists s. split; [done|]. split; [by right | done].
  - intros [= ->]. unfold to_datetime_cell in Hc. destruct c as [s|]; [|done].
    destruct (parse_datetime s) eqn:Hp; [done|]. injection Hc as <-.
    exists s. split; [done|]. split; [by left | done].
Qed.

Lemma array_to_datetime_invalid (col : list (option string)) :
  (∃ s, array_to_datetime parse_datetime col = Raise (InvalidTimestamp s)) ↔
  Exists (unparseable parse_datetime) col.
Proof.
  rewrite <- array_to_datetime_raise. split.
  - intros [s Hs]. by eexists.
  - intros [e He]. destruct (array_to_datetime_error _ _ He) as (s & -> & _). by exists s.
Qed.

Lemma zip_with_features_derived {M} (to_month : option Timestamp → M)
    (rows : list Row) (dates : list (option Timestamp)) :
  array_to_datetime parse_datetime (InvoiceDate <$> rows) = Ok dates →
  Forall2 (derived_from parse_datetime to_month) rows
          (zip_with (with_features to_month) rows dates).
Proof.
  rewrite array_to_datetime_Ok, Forall2_fmap_l.
  induction 1 as [|r t rows dates Hr Hrows IH]; simpl; [constructor|].
  constructor; [|exact IH]. unfold derived_from. simpl. by repeat split.
Qed.

End array_to_datetime_facts.

(** A row derived from a row without missing cells is priced. *)
Lemma derived_from_priced {M} parse_datetime (to_month : option Timestamp → M)
    (r : Row) (r' : FeatureRow M) :
  notna r → derived_from parse_datetime to_month r r' → priced r'.
Proof.
  intros (_ & _ & [q Hq] & _ & [p Hp] & _) (_ & _ & Hq' & Hp' & _ & _ & Ht & _).
  exists q, p. rewrite Hq', Hp', Ht, Hq, Hp. done.
Qed.

Lemma sum_priced {M} (df : list (FeatureRow M)) :
  Forall priced df → sum (TotalPrice <$> df) = plain_revenue df.
Proof.
  unfold plain_revenue. induction 1 as [|r df (q & p & Hq & Hp & Ht) Hdf IH]; [done|].
  rewrite !fmap_cons, sum_cons, IH. unfold quantity_times_price at 2.
  rewrite Ht, Hq, Hp. reflexivity.
Qed.

(** ** The parser of a column *)

(** The parser of a column is one of the parsers of the library. *)
Lemma column_parser_cases (lib : DateLibrary) (col : list (option string)) :
  column_parser lib col = dateutil_parse lib ∨
  ∃ format, column_parser lib col = strptime lib format.
Proof.
  unfold column_parser. destruct (remove_na col) as [|first rest]; [by left|].
  destruct (guess_datetime_format lib first) as [format|]; [right; by exists format | by left].
Qed.

(** A cell that is no date is rejected, whatever the column. *)
Lemma not_a_date_unparseable (lib : DateLibrary) (col : list (option string))
    (c : option string) :
  not_a_date lib c → unparseable (column_parser lib col) c.
Proof.
  intros (s & -> & Hd & Hf). exists s. split; [done|].
  destruct (column_parser_cases lib col) as [->|[format ->]]; [done | apply Hf].
Qed.

Lemma four_digit_column_parser (lib : DateLibrary) (col : list (option string))
    (s : string) (t : Timestamp) :
  four_digit_years lib → column_parser lib col s = Some t →
  year t / 100 < 100 ∧ month t < 100.
Proof.
  intros Hfour Hp. apply (Hfour s).
  destruct (column_parser_cases lib col) as [Hc|[format Hc]]; rewrite Hc in Hp.
  - by left.
  - right. by exists format.
Qed.

(** ** The metric engine: [calculate_kpis] *)

Lemma isin_months_nil (df : list (FeatureRow string)) : DS.isin_months df [] = [].
Proof.
  unfold DS.isin_months. induction df as [|r df IH]; [done|].
  rewrite filter_cons_False; [exact IH|]. apply not_elem_of_nil.
Qed.

(** C1, as the specification states it, fails: with no month selected the
    subset is empty and the average sale is NaN, not 0. *)
Lemma empty_subset_average_is_not_zero :
  DS.kpis (DS.update_dashboard [lantern_line; heart_line] []) ≠ zeroed_kpis.
Proof. vm_compute. discriminate. Qed.

(** C1 (amended): on the empty subset [calculate_kpis] returns total
    revenue 0, order count 0 and the average NaN; with an empty selection
    the callback returns these numbers and two empty series, whatever the
    table; the report's two aggregates are empty on the empty table.
    Nothing is raised: every function returns a value. *)
Theorem empty_subset_outputs :
  DS.calculate_kpis (M := string) [] = empty_kpis ∧
  (∀ df : list (FeatureRow string),
     DS.update_dashboard df [] =
       {| DS.kpis := empty_kpis; DS.top_products := []; DS.monthly_sales := [] |}) ∧
  Starter.descriptive_analysis (M := option Period) [] = (None, [], 0%Z) ∧
  Starter.create_line_chart [] = [].
Proof.
  split; [reflexivity|]. split; [|split; reflexivity].
  intros df. unfold DS.update_dashboard. rewrite isin_months_nil. reflexivity.
Qed.

Lemma nunique_distinct {A} `{Countable A} (col : list (option A)) :
  nunique col = size (list_to_set (remove_na col) : gset A).
Proof.
  unfold nunique.
  rewrite <- (size_list_to_set (C := gset A) (remove_na (unique col))).
  - f_equal. apply set_eq. intros x.
    rewrite !elem_of_list_to_set, !elem_of_remove_na. apply elem_of_unique.
  - apply NoDup_remove_na, NoDup_unique.
Qed.

Lemma omap_remove_na {A B} (f : A → option B) (l : list A) :
  omap f l = remove_na (f <$> l).
Proof.
  unfold remove_na. induction l as [|x l IH]; [done|].
  rewrite fmap_cons. cbn [omap list_omap]. rewrite <- IH. by destruct (f x).
Qed.

Lemma elem_of_order_ids {M} (df : list (FeatureRow M)) (x : string) :
  x ∈ order_ids df ↔ ∃ r, r ∈ df ∧ fInvoiceNo r = Some x.
Proof. unfold order_ids. by rewrite elem_of_list_to_set, list_elem_of_omap. Qed.

(** C2: the order count is the number of distinct order identifiers that
    occur in the table, for every table: it is the size of the set of the
    identifiers the rows carry, and the length of any list that names each
    of them once.  It never exceeds the number of rows, and rows of one
    order count once. *)
Theorem order_count_is_distinct_orders {M} (df : list (FeatureRow M)) :
  DS.total_orders (DS.calculate_kpis df) = size (order_ids df) ∧
  (∀ ids : list string,
     NoDup ids → (∀ x, x ∈ ids ↔ ∃ r, r ∈ df ∧ fInvoiceNo r = Some x) →
     DS.total_orders (DS.calculate_kpis df) = length ids) ∧
  DS.total_orders (DS.calculate_kpis df) ≤ length df ∧
  (∀ r r' : FeatureRow M, fInvoiceNo r' = fInvoiceNo r →
     DS.total_orders (DS.calculate_kpis (r' :: r :: df)) =
     DS.total_orders (DS.calculate_kpis (r :: df))).
Proof.
  assert (Hsize : DS.total_orders (DS.calculate_kpis df) = size (order_ids df)).
  { unfold order_ids. rewrite omap_remove_na. apply nunique_distinct. }
  split; [exact Hsize|]. split; [|split].
  - intros ids Hnodup Hids. rewrite Hsize, <- (size_list_to_set (C := gset string) ids Hnodup).
    f_equal. apply set_eq. intros x.
    by rewrite elem_of_order_ids, elem_of_list_to_set, Hids.
  - simpl. unfold nunique.
    transitivity (length (unique (fInvoiceNo <$> df))).
    + apply length_remove_na.
    + rewrite <- (length_fmap fInvoiceNo df).
      apply sublist_length, unique_from_sublist.
  - intros r r' Hr. unfold DS.calculate_kpis. cbn [DS.total_orders].
    rewrite !nunique_distinct. f_equal.
    apply set_eq. intros x. rewrite !elem_of_list_to_set, !elem_of_remove_na.
    rewrite !fmap_cons, !elem_of_cons, Hr. tauto.
Qed.

(** ** [value_counts]: the hash table *)

Section value_count_facts.
Context {A : Type} `{EqDecision A}.

Lemma unique_from_snoc (seen col : list A) (x : A) :
  unique_from seen (col ++ [x]) =
  unique_from seen col ++ (if bool_decide (x ∈ seen ++ col) then [] else [x]).
Proof.
  revert seen. induction col as [|y col IH]; intros seen; simpl.
  - rewrite app_nil_r. by case_bool_decide.
  - case_bool_decide as Hy.
    + rewrite IH. f_equal. apply if_bool_decide_ext.
      rewrite !elem_of_app, elem_of_cons. split; [tauto|].
      intros [?|[->|?]]; tauto.
    + rewrite IH. simpl. do 2 f_equal. apply if_bool_decide_ext.
      repeat (rewrite elem_of_cons || rewrite elem_of_app). tauto.
Qed.

Lemma unique_snoc (col : list A) (x : A) :
  unique (col ++ [x]) = unique col ++ (if bool_decide (x ∈ col) then [] else [x]).
Proof. unfold unique. by rewrite unique_from_snoc. Qed.

Lemma occurrences_snoc (y x : A) (col : list A) :
  occurrences y (col ++ [x]) = occurrences y col + (if decide (x = y) then 1 else 0).
Proof.
  unfold occurrences. rewrite list.filter_app, length_app. f_equal.
  rewrite filter_cons, filter_nil. by destruct (decide (x = y)).
Qed.

Lemma occurrences_pos (x : A) (col : list A) : x ∈ col ↔ 0 < occurrences x col.
Proof.
  unfold occurrences. split.
  - intros Hx. assert (Hin : x ∈ filter (λ y, y = x) col) by by apply list_elem_of_filter.
    destruct (filter (λ y, y = x) col); [inversion Hin | simpl; lia].
  - intros Hlen. destruct (filter (λ y, y = x) col) as [|z l] eqn:Hf; [simpl in Hlen; lia|].
    assert (Hz : z ∈ filter (λ y, y = x) col) by (rewrite Hf; left).
    apply list_elem_of_filter in Hz as [-> Hz]. done.
Qed.

(** One more occurrence of [x]: its counter goes up by one, or a new
    counter is added at the end; the other counters stay. *)
Lemma count_into_keys (tbl : list (A * nat)) (x : A) :
  (count_into tbl x).*1 = tbl.*1 ++ (if bool_decide (x ∈ tbl.*1) then [] else [x]).
Proof.
  induction tbl as [|[y n] tbl IH]; [done|].
  cbn [count_into]. destruct (decide (x = y)) as [->|Hne]; rewrite !fmap_cons; cbn [fst].
  - rewrite bool_decide_true by left. by rewrite app_nil_r.
  - rewrite IH, <- app_comm_cons. do 2 f_equal. apply if_bool_decide_ext.
    rewrite elem_of_cons. tauto.
Qed.

Lemma elem_of_count_into (tbl : list (A * nat)) (x y : A) (n : nat) :
  NoDup tbl.*1 →
  (y, n) ∈ count_into tbl x →
  (y ≠ x ∧ (y, n) ∈ tbl) ∨
  (y = x ∧ ((∃ m, (x, m) ∈ tbl ∧ n = S m) ∨ ((x ∉ tbl.*1) ∧ n = 1))).
Proof.
  induction tbl as [|[z m] tbl IH]; cbn [count_into]; rewrite ?fmap_cons; cbn [fst];
    intros Hnd Hin.
  - apply list_elem_of_singleton in Hin. injection Hin as -> ->.
    right. split; [done|]. right. split; [apply not_elem_of_nil | done].
  - apply list.NoDup_cons in Hnd as [Hz Hnd].
    destruct (decide (x = z)) as [->|Hne].
    + apply elem_of_cons in Hin as [Hin|Hin].
      * injection Hin as -> ->. right. split; [done|]. left. exists m. split; [left | done].
      * left. split; [|by right]. intros ->. apply Hz.
        apply list_elem_of_fmap. by exists (z, n).
    + apply elem_of_cons in Hin as [Hin|Hin].
      * injection Hin as -> ->. left. split; [done | left].
      * destruct (IH Hnd Hin) as [[Hy Hi]|[-> [(k & Hk & ->)|[Hk ->]]]].
        -- left. split; [done | by right].
        -- right. split; [done|]. left. exists k. split; [by right | done].
        -- right. split; [done|]. right. split; [|done].
           rewrite not_elem_of_cons. done.
Qed.

(** The hash table after one pass: the values in order of first
    appearance, each with the number of its occurrences. *)
Lemma value_count_spec (col : list A) :
  (value_count col).*1 = unique col ∧
  ∀ y n, (y, n) ∈ value_count col → n = occurrences y col.
Proof.
  unfold value_count. induction col as [|x col [IHk IHc]] using rev_ind.
  - split; [done|]. intros y n Hin. inversion Hin.
  - rewrite foldl_snoc. split.
    + rewrite count_into_keys, IHk, unique_snoc. do 2 f_equal.
      apply if_bool_decide_ext. apply elem_of_unique.
    + intros y n Hin. rewrite occurrences_snoc.
      apply elem_of_count_into in Hin; [|rewrite IHk; apply NoDup_unique].
      destruct Hin as [[Hy Hi]|[-> [(k & Hk & ->)|[Hk ->]]]].
      * rewrite decide_False by done. rewrite (IHc _ _ Hi). lia.
      * rewrite decide_True by done. rewrite (IHc _ _ Hk). lia.
      * rewrite decide_True by done.
        rewrite IHk, elem_of_unique, occurrences_pos in Hk. lia.
Qed.

End value_count_facts.

(** ** [value_counts]: the descending, stable sort *)

Section sort_values_facts.
Context {A : Type}.
Implicit Types (e : A * nat) (tbl : list (A * nat)).

Lemma insert_desc_Permutation e tbl : insert_desc e tbl ≡ₚ e :: tbl.
Proof.
  induction tbl as [|e' tbl IH]; simpl; [done|].
  destruct (e'.2 <=? e.2); [done|]. rewrite IH. apply perm_swap.
Qed.

Lemma sort_values_desc_Permutation tbl : sort_values_desc tbl ≡ₚ tbl.
Proof.
  induction tbl as [|e tbl IH]; simpl; [done|].
  rewrite insert_desc_Permutation. by constructor.
Qed.

Lemma insert_desc_sorted e tbl :
  StronglySorted count_ge tbl → StronglySorted count_ge (insert_desc e tbl).
Proof.
  induction 1 as [|e' tbl Hs IH Hall]; simpl.
  - repeat constructor.
  - destruct (Nat.leb_spec (e'.2) (e.2)) as [Hle|Hlt].
    + constructor; [by constructor|]. constructor; [exact Hle|].
      eapply Forall_impl; [|exact Hall]. unfold count_ge. intros; lia.
    + constructor; [exact IH|].
      rewrite insert_desc_Permutation. constructor; [|exact Hall].
      unfold count_ge. lia.
Qed.

Lemma sort_values_desc_sorted tbl : StronglySorted count_ge (sort_values_desc tbl).
Proof.
  induction tbl as [|e tbl IH]; simpl; [constructor|]. by apply insert_desc_sorted.
Qed.

(** Stability: among the entries of one count the sort changes nothing. *)
Lemma insert_desc_stable (c : nat) e tbl :
  filter (λ e', e'.2 = c) (insert_desc e tbl) = filter (λ e', e'.2 = c) (e :: tbl).
Proof.
  induction tbl as [|e' tbl IH]; simpl; [done|].
  destruct (Nat.leb_spec (e'.2) (e.2)) as [Hle|Hlt]; [done|].
  rewrite (filter_cons _ e'), IH, !(filter_cons _ e), (filter_cons _ e').
  destruct (decide (e'.2 = c)), (decide (e.2 = c)); try done. lia.
Qed.

Lemma sort_values_desc_stable (c : nat) tbl :
  filter (λ e, e.2 = c) (sort_values_desc tbl) = filter (λ e, e.2 = c) tbl.
Proof.
  induction tbl as [|e tbl IH]; simpl; [done|].
  rewrite insert_desc_stable, !(filter_cons _ e), IH. done.
Qed.

End sort_values_facts.

(** ** The top-items series: [value_counts().head(10)] *)

Lemma head_value_counts_top_items (col : list (option string)) :
  top_items_of (remove_na col) (head 10 (value_counts col)).
Proof.
  unfold head, value_counts. set (descs := remove_na col).
  destruct (value_count_spec descs) as [Hkeys Hcounts].
  pose proof (sort_values_desc_Permutation (value_count descs)) as Hperm.
  pose proof (sort_values_desc_sorted (value_count descs)) as Hsorted.
  set (s := sort_values_desc (value_count descs)) in *.
  assert (Hsub : take 10 s `sublist_of` s) by apply sublist_take.
  split.
  - rewrite length_take. lia.
  - eapply sublist_NoDup; [|apply fmap_sublist, Hsub].
    rewrite Hperm, Hkeys. apply NoDup_unique.
  - intros d n Hin.
    assert (Hvc : (d, n) ∈ value_count descs).
    { rewrite <- Hperm. eapply elem_of_sublist; [exact Hin | exact Hsub]. }
    split; [by apply Hcounts|].
    rewrite (Hcounts _ _ Hvc). apply occurrences_pos.
    rewrite <- elem_of_unique, <- Hkeys. apply list_elem_of_fmap. by exists (d, n).
  - rewrite <- (take_drop 10 s) in Hsorted.
    apply StronglySorted_app in Hsorted. tauto.
  - intros e1 e2 Hs Hc.
    assert (Hf : [e1; e2] `sublist_of` filter (λ e, e.2 = e1.2) s).
    { replace [e1; e2] with (filter (λ e : string * nat, e.2 = e1.2) [e1; e2]).
      - apply sublist_filter_mono. by etransitivity.
      - rewrite !filter_cons, filter_nil.
        rewrite decide_True by done. by rewrite decide_True by done. }
    unfold s in Hf. rewrite sort_values_desc_stable in Hf.
    assert (Hv : [e1.1; e2.1] `sublist_of` unique descs).
    { rewrite <- Hkeys. change [e1.1; e2.1] with ([e1; e2].*1).
      apply fmap_sublist. etransitivity; [exact Hf | apply sublist_filter]. }
    by apply unique_from_first_seen in Hv.
  - intros d Hd.
    assert (Hk : d ∈ (value_count descs).*1) by (rewrite Hkeys; by apply elem_of_unique).
    apply list_elem_of_fmap in Hk as ([d' n] & -> & Hin). simpl.
    pose proof (Hcounts _ _ Hin) as Hn.
    rewrite <- Hperm, <- (take_drop 10 s) in Hin.
    apply elem_of_app in Hin as [Hin|Hin].
    + left. apply list_elem_of_fmap. by exists (d', n).
    + right. split.
      * destruct (decide (length s ≤ 10)) as [Hle|Hgt].
        -- rewrite drop_ge in Hin by done. inversion Hin.
        -- rewrite length_take. lia.
      * intros e He. rewrite <- Hn.
        rewrite <- (take_drop 10 s) in Hsorted.
        apply (StronglySorted_app_1_elem_of _ _ _ e (d', n) Hsorted He Hin).
Qed.


(** ** [groupby(...).sum()]: the accumulator *)

Section group_sum_facts.
Context {K : Type} `{EqDecision K}.
Implicit Types (tbl : list (K * Qc)) (rows : list (K * option Qc)).

Lemma add_into_keys tbl (k : K) (v : option Qc) :
  (add_into tbl k v).*1 = tbl.*1 ++ (if bool_decide (k ∈ tbl.*1) then [] else [k]).
Proof.
  induction tbl as [|[k' s] tbl IH]; [done|].
  cbn [add_into]. destruct (decide (k = k')) as [->|Hne]; rewrite !fmap_cons; cbn [fst].
  - rewrite bool_decide_true by left. by rewrite app_nil_r.
  - rewrite IH, <- app_comm_cons. do 2 f_equal. apply if_bool_decide_ext.
    rewrite elem_of_cons. tauto.
Qed.

Lemma elem_of_add_into tbl (k k' : K) (v : option Qc) (s : Qc) :
  NoDup tbl.*1 →
  (k', s) ∈ add_into tbl k v →
  (k' ≠ k ∧ (k', s) ∈ tbl) ∨
  (k' = k ∧ ((∃ s0, (k, s0) ∈ tbl ∧ s = (s0 + default 0 v)%Qc) ∨
             ((k ∉ tbl.*1) ∧ s = default 0%Qc v))).
Proof.
  induction tbl as [|[z m] tbl IH]; cbn [add_into]; rewrite ?fmap_cons; cbn [fst];
    intros Hnd Hin.
  - apply list_elem_of_singleton in Hin. injection Hin as -> ->.
    right. split; [done|]. right. split; [apply not_elem_of_nil | done].
  - apply list.NoDup_cons in Hnd as [Hz Hnd].
    destruct (decide (k = z)) as [->|Hne].
    + apply elem_of_cons in Hin as [Hin|Hin].
      * injection Hin as -> ->. right. split; [done|]. left. exists m. split; [left | done].
      * left. split; [|by right]. intros ->. apply Hz.
        apply list_elem_of_fmap. by exists (z, s).
    + apply elem_of_cons in Hin as [Hin|Hin].
      * injection Hin as -> ->. left. split; [done | left].
      * destruct (IH Hnd Hin) as [[Hy Hi]|[-> [(s0 & Hk & ->)|[Hk ->]]]].
        -- left. split; [done | by right].
        -- right. split; [done|]. left. exists s0. split; [by right | done].
        -- right. split; [done|]. right. split; [|done].
           rewrite not_elem_of_cons. done.
Qed.

Lemma group_total_snoc (k : K) rows (kv : K * option Qc) :
  group_total k (rows ++ [kv]) =
  (group_total k rows + (if decide (kv.1 = k) then default 0 kv.2 else 0))%Qc.
Proof.
  unfold group_total. rewrite list.filter_app, fmap_app, sum_app. f_equal.
  rewrite filter_cons, filter_nil. destruct (decide (kv.1 = k)); [|done].
  rewrite fmap_cons, sum_cons. simpl. rewrite sum_nil. ring.
Qed.

Lemma group_total_absent (k : K) rows : k ∉ rows.*1 → group_total k rows = 0%Qc.
Proof.
  intros Hk. unfold group_total.
  replace (filter (λ kv : K * option Qc, kv.1 = k) rows) with (@nil (K * option Qc)); [done|].
  symmetry. induction rows as [|kv rows IH]; [done|].
  rewrite fmap_cons, not_elem_of_cons in Hk. destruct Hk as [Hne Hk].
  rewrite filter_cons_False by (intros Heq; by apply Hne). by apply IH.
Qed.

(** The accumulator after one pass: the keys in order of first
    appearance, each with the sum of the values of its rows. *)
Lemma group_sum_spec rows :
  (group_sum rows).*1 = unique rows.*1 ∧
  ∀ k s, (k, s) ∈ group_sum rows → s = group_total k rows.
Proof.
  unfold group_sum. induction rows as [|kv rows [IHk IHs]] using rev_ind.
  - split; [done|]. intros k s Hin. inversion Hin.
  - rewrite foldl_snoc. split.
    + rewrite add_into_keys, IHk, fmap_app. change ([kv].*1) with [kv.1].
      rewrite unique_snoc. do 2 f_equal.
      apply if_bool_decide_ext. apply elem_of_unique.
    + intros k s Hin. rewrite group_total_snoc.
      apply elem_of_add_into in Hin; [|rewrite IHk; apply NoDup_unique].
      destruct Hin as [[Hy Hi]|[-> [(s0 & Hk & ->)|[Hk ->]]]].
      * rewrite decide_False by done. rewrite (IHs _ _ Hi). ring.
      * rewrite decide_True by done. by rewrite (IHs _ _ Hk).
      * rewrite decide_True by done.
        rewrite IHk, elem_of_unique in Hk. rewrite (group_total_absent _ _ Hk). ring.
Qed.



End group_sum_facts.

(** ** [groupby(...).sum()]: the sort of the index *)

Section sort_index_facts.
Context {K V : Type} (leb : K → K → bool).
Hypothesis leb_total : ∀ a b, leb a b = true ∨ leb b a = true.
Hypothesis leb_trans : ∀ a b c, leb a b = true → leb b c = true → leb a c = true.
Implicit Types (e : K * V) (tbl : list (K * V)).

Lemma insert_key_Permutation e tbl : insert_key leb e tbl ≡ₚ e :: tbl.
Proof.
  induction tbl as [|e' tbl IH]; simpl; [done|].
  destruct (leb e.1 e'.1); [done|]. rewrite IH. apply perm_swap.
Qed.

Lemma sort_index_Permutation tbl : sort_index leb tbl ≡ₚ tbl.
Proof.
  induction tbl as [|e tbl IH]; simpl; [done|].
  rewrite insert_key_Permutation. by constructor.
Qed.

Lemma insert_key_sorted e tbl :
  StronglySorted (key_le leb) tbl → StronglySorted (key_le leb) (insert_key leb e tbl).
Proof using leb_total leb_trans.
  induction 1 as [|e' tbl Hs IH Hall]; simpl.
  - repeat constructor.
  - destruct (leb e.1 e'.1) eqn:Hle.
    + constructor; [by constructor|]. constructor; [exact Hle|].
      eapply Forall_impl; [|exact Hall]. unfold key_le. intros a Ha. by eapply leb_trans.
    + constructor; [exact IH|].
      rewrite insert_key_Permutation. constructor; [|exact Hall].
      unfold key_le. destruct (leb_total e.1 e'.1); [congruence | done].
Qed.

Lemma sort_index_sorted tbl : StronglySorted (key_le leb) (sort_index leb tbl).
Proof using leb_total leb_trans.
  induction tbl as [|e tbl IH]; simpl; [constructor|]. by apply insert_key_sorted.
Qed.

End sort_index_facts.

(** ** The order of the month keys *)

Lemma ascii_compare_refl (a : ascii) : Ascii.compare a a = Eq.
Proof. apply N.compare_refl. Qed.

Lemma ascii_compare_lt_trans (a b c : ascii) :
  Ascii.compare a b = Lt → Ascii.compare b c = Lt → Ascii.compare a c = Lt.
Proof.
  unfold Ascii.compare. rewrite !N.compare_lt_iff. apply N.lt_trans.
Qed.

Lemma string_compare_refl (s : string) : String.compare s s = Eq.
Proof.
  induction s as [|a s IH]; simpl; [done|]. by rewrite ascii_compare_refl.
Qed.

Lemma string_compare_lt_trans (s1 s2 s3 : string) :
  String.compare s1 s2 = Lt → String.compare s2 s3 = Lt → String.compare s1 s3 = Lt.
Proof.
  revert s2 s3. induction s1 as [|a s1 IH]; intros [|b s2] [|c s3]; simpl; try done.
  destruct (Ascii.compare a b) eqn:Hab; try done;
    destruct (Ascii.compare b c) eqn:Hbc; try done.
  - apply Ascii.compare_eq_iff in Hab as ->. rewrite Hbc. apply IH.
  - apply Ascii.compare_eq_iff in Hab as ->. by rewrite Hbc.
  - apply Ascii.compare_eq_iff in Hbc as <-. by rewrite Hab.
  - by rewrite (ascii_compare_lt_trans _ _ _ Hab Hbc).
Qed.

Lemma string_leb_trans (s1 s2 s3 : string) :
  String.leb s1 s2 = true → String.leb s2 s3 = true → String.leb s1 s3 = true.
Proof.
  unfold String.leb.
  destruct (String.compare s1 s2) eqn:H12; try done;
    destruct (String.compare s2 s3) eqn:H23; try done; intros _ _.
  - apply String.compare_eq_iff in H12 as ->. by rewrite H23.
  - apply String.compare_eq_iff in H12 as ->. by rewrite H23.
  - apply String.compare_eq_iff in H23 as <-. by rewrite H12.
  - by rewrite (string_compare_lt_trans _ _ _ H12 H23).
Qed.

Lemma string_leb_ne_ltb (s1 s2 : string) :
  String.leb s1 s2 = true → s1 ≠ s2 → String.ltb s1 s2 = true.
Proof.
  unfold String.leb, String.ltb.
  destruct (String.compare s1 s2) eqn:Hc; try done.
  intros _ Hne. by apply String.compare_eq_iff in Hc.
Qed.

(** Ascending keys without repetition are strictly ascending. *)
Lemma sorted_keys_strict {V} (tbl : list (string * V)) :
  StronglySorted (key_le String.leb) tbl → NoDup tbl.*1 → StronglySorted key_lt tbl.
Proof.
  induction 1 as [|e tbl Hs IH Hall]; [constructor|].
  rewrite fmap_cons. intros [Hne Hnd]%list.NoDup_cons.
  constructor; [by apply IH|].
  apply list.Forall_forall. intros e' He'. rewrite list.Forall_forall in Hall.
  apply string_leb_ne_ltb; [by apply Hall|].
  intros Heq. apply Hne. rewrite Heq. apply list_elem_of_fmap. by exists e'.
Qed.

(** ** Month keys written as strings *)

Lemma digit_char_code (n : nat) : N_of_ascii (digit_char n) = N.of_nat (48 + n mod 10).
Proof.
  unfold digit_char, ascii_of_nat. apply N_ascii_embedding.
  pose proof (Nat.mod_upper_bound n 10). lia.
Qed.

Lemma compare_digit_char (a b : nat) :
  Ascii.compare (digit_char a) (digit_char b) = (a mod 10 ?= b mod 10).
Proof.
  unfold Ascii.compare. rewrite !digit_char_code, <- Nat2N.inj_compare.
  pose proof (Nat.mod_upper_bound a 10). pose proof (Nat.mod_upper_bound b 10).
  generalize dependent (a mod 10). generalize dependent (b mod 10). intros y Hy x Hx.
  destruct (Nat.compare_spec x y) as [Heq|Hlt|Hgt].
  - rewrite Heq. apply Nat.compare_refl.
  - apply Nat.compare_lt_iff. lia.
  - apply Nat.compare_gt_iff. lia.
Qed.

Lemma pad2_append (n : nat) (s : string) :
  (pad2 n +:+ s)%string = String (digit_char (n / 10)) (String (digit_char n) s).
Proof. reflexivity. Qed.

(** Two digits, zero padded, compare as the numbers they write. *)
Lemma compare_pad2 (a b : nat) (s t : string) :
  a < 100 → b < 100 →
  String.compare (pad2 a +:+ s) (pad2 b +:+ t) =
  match a ?= b with Eq => String.compare s t | c => c end.
Proof.
  intros Ha Hb. rewrite !pad2_append. cbn [String.compare].
  rewrite !compare_digit_char.
  assert (Hqa : a / 10 < 10) by (apply Nat.Div0.div_lt_upper_bound; lia).
  assert (Hqb : b / 10 < 10) by (apply Nat.Div0.div_lt_upper_bound; lia).
  rewrite (Nat.mod_small (a / 10)), (Nat.mod_small (b / 10)) by done.
  pose proof (Nat.div_mod_eq a 10) as Ea. pose proof (Nat.div_mod_eq b 10) as Eb.
  pose proof (Nat.mod_upper_bound a 10) as Ra. pose proof (Nat.mod_upper_bound b 10) as Rb.
  generalize dependent (a mod 10). generalize dependent (b mod 10).
  generalize dependent (a / 10). generalize dependent (b / 10).
  intros qb Hqb qa Hqa rb Eb Rb ra Ea Ra.
  destruct (Nat.compare_spec qa qb), (Nat.compare_spec ra rb),
    (Nat.compare_spec a b); try done; lia.
Qed.

Lemma pad4_append (n : nat) (s : string) :
  (pad4 n +:+ s)%string = (pad2 (n / 100) +:+ (pad2 (n mod 100) +:+ s))%string.
Proof. reflexivity. Qed.

Lemma compare_pad4 (a b : nat) (s t : string) :
  a / 100 < 100 → b / 100 < 100 →
  String.compare (pad4 a +:+ s) (pad4 b +:+ t) =
  match a ?= b with Eq => String.compare s t | c => c end.
Proof.
  intros Ha Hb. rewrite !pad4_append.
  pose proof (Nat.mod_upper_bound a 100) as Ra. pose proof (Nat.mod_upper_bound b 100) as Rb.
  rewrite compare_pad2 by done. rewrite compare_pad2 by lia.
  pose proof (Nat.div_mod_eq a 100) as Ea. pose proof (Nat.div_mod_eq b 100) as Eb.
  generalize dependent (a mod 100). generalize dependent (b mod 100).
  generalize dependent (a / 100). generalize dependent (b / 100).
  intros qb Hqb qa Hqa rb Rb Eb ra Ra Ea.
  destruct (Nat.compare_spec qa qb), (Nat.compare_spec ra rb),
    (Nat.compare_spec a b); try done; lia.
Qed.

(** With four-digit years the string order of the month keys is the
    chronological order of the periods. *)
Lemma compare_month_name (p q : Period) :
  four_digit_year p → four_digit_year q →
  String.compare (month_name p) (month_name q) =
  match pyear p ?= pyear q with Eq => pmonth p ?= pmonth q | c => c end.
Proof.
  intros [Hpy Hpm] [Hqy Hqm]. unfold month_name, period_str.
  rewrite compare_pad4 by done.
  destruct (pyear p ?= pyear q); try done.
  change ("-" +:+ pad2 (pmonth p))%string with (String "-" (pad2 (pmonth p) +:+ "")).
  change ("-" +:+ pad2 (pmonth q))%string with (String "-" (pad2 (pmonth q) +:+ "")).
  cbn [String.compare]. rewrite ascii_compare_refl, compare_pad2 by done.
  by destruct (pmonth p ?= pmonth q).
Qed.

Lemma month_name_lt (p q : Period) :
  four_digit_year p → four_digit_year q → period_lt p q →
  String.ltb (month_name p) (month_name q) = true.
Proof.
  intros Hp Hq Hlt. unfold String.ltb. rewrite compare_month_name by done.
  destruct Hlt as [Hy|[Hy Hm]].
  - apply Nat.compare_lt_iff in Hy. by rewrite Hy.
  - rewrite Hy, Nat.compare_refl. apply Nat.compare_lt_iff in Hm. by rewrite Hm.
Qed.

Lemma period_leb_total (p q : Period) :
  Starter.period_leb p q = true ∨ Starter.period_leb q p = true.
Proof.
  unfold Starter.period_leb.
  rewrite !orb_true_iff, !andb_true_iff, !Nat.ltb_lt, !Nat.eqb_eq, !Nat.leb_le. lia.
Qed.

Lemma period_leb_trans (p q r : Period) :
  Starter.period_leb p q = true → Starter.period_leb q r = true →
  Starter.period_leb p r = true.
Proof.
  unfold Starter.period_leb.
  rewrite !orb_true_iff, !andb_true_iff, !Nat.ltb_lt, !Nat.eqb_eq, !Nat.leb_le. lia.
Qed.

Lemma period_leb_ne_lt (p q : Period) :
  Starter.period_leb p q = true → p ≠ q → period_lt p q.
Proof.
  unfold Starter.period_leb, period_lt. destruct p as [py pm], q as [qy qm]. simpl.
  rewrite !orb_true_iff, !andb_true_iff, !Nat.ltb_lt, !Nat.eqb_eq, !Nat.leb_le.
  intros Hle Hne.
  destruct (decide (py = qy)) as [->|Hy]; [|lia].
  destruct (decide (pm = qm)) as [->|Hm]; [done | lia].
Qed.

(** ** The period-totals series *)

Section groupby_sum_facts.
Context {K : Type} `{EqDecision K} (leb : K → K → bool).
Hypothesis leb_total : ∀ a b, leb a b = true ∨ leb b a = true.
Hypothesis leb_trans : ∀ a b c, leb a b = true → leb b c = true → leb a c = true.

(** [groupby(key)[value].sum()]: one group per key that occurs, each with
    the sum of the values of its rows, keys ascending. *)
Lemma groupby_sum_spec (rows : list (K * option Qc)) :
  NoDup (groupby_sum leb rows).*1 ∧
  (∀ k, k ∈ (groupby_sum leb rows).*1 ↔ k ∈ rows.*1) ∧
  (∀ k s, (k, s) ∈ groupby_sum leb rows → s = group_total k rows) ∧
  StronglySorted (key_le leb) (groupby_sum leb rows).
Proof using leb_total leb_trans.
  unfold groupby_sum.
  destruct (group_sum_spec rows) as [Hkeys Hsums].
  pose proof (sort_index_Permutation leb (group_sum rows)) as Hperm.
  split; [|split; [|split]].
  - rewrite Hperm, Hkeys. apply NoDup_unique.
  - intros k. by rewrite Hperm, Hkeys, elem_of_unique.
  - intros k s Hin. rewrite Hperm in Hin. by apply Hsums.
  - by apply sort_index_sorted.
Qed.

End groupby_sum_facts.

Lemma filter_fmap_key {M : Type} `{EqDecision M} (m : M) (df : list (FeatureRow M)) :
  (filter (λ kv : M * option Qc, kv.1 = m) ((λ r, (Month r, TotalPrice r)) <$> df)).*2 =
  TotalPrice <$> filter (λ r, Month r = m) df.
Proof.
  induction df as [|r df IH]; [done|].
  rewrite fmap_cons, !filter_cons. cbn [fst].
  destruct (decide (Month r = m)); [|exact IH].
  rewrite !fmap_cons. cbn [snd]. by rewrite IH.
Qed.

Lemma monthly_sales_period_totals (df : list (FeatureRow string)) :
  period_totals_of df (groupby_sum String.leb ((λ r, (Month r, TotalPrice r)) <$> df)).
Proof.
  set (rows := (λ r, (Month r, TotalPrice r)) <$> df).
  destruct (groupby_sum_spec String.leb String.leb_total string_leb_trans rows)
    as (Hnd & Hkeys & Hsums & Hsorted).
  assert (Hrows : rows.*1 = Month <$> df).
  { unfold rows. rewrite <- list_fmap_compose. done. }
  split.
  - exact Hnd.
  - intros m. by rewrite Hkeys, Hrows.
  - intros m s Hin. rewrite (Hsums _ _ Hin).
    unfold group_total, rows. by rewrite filter_fmap_key.
  - by apply sorted_keys_strict.
Qed.

(** The rows of the report's table that are in a group, with their key. *)
Lemma line_chart_rows_cons (r : FeatureRow (option Period))
    (df : list (FeatureRow (option Period))) :
  omap (λ r, (λ p, (p, TotalPrice r)) <$> Month r) (r :: df) =
  match Month r with
  | Some p => (p, TotalPrice r) :: omap (λ r, (λ p, (p, TotalPrice r)) <$> Month r) df
  | None => omap (λ r, (λ p, (p, TotalPrice r)) <$> Month r) df
  end.
Proof. cbn [omap list_omap]. by destruct (Month r). Qed.

Lemma line_chart_rows_keys (df : list (FeatureRow (option Period))) (p : Period) :
  p ∈ (omap (λ r, (λ p, (p, TotalPrice r)) <$> Month r) df).*1 ↔ Some p ∈ Month <$> df.
Proof.
  induction df as [|r df IH].
  - split; intros Hin; inversion Hin.
  - rewrite line_chart_rows_cons, fmap_cons, (elem_of_cons _ (Some p)), <- IH.
    destruct (Month r) as [q|].
    + rewrite fmap_cons, elem_of_cons. cbn [fst].
      split; (intros [Heq|Hin]; [left; congruence | by right]).
    + split; [by right | by intros [?|?]].
Qed.

Lemma line_chart_rows_total (df : list (FeatureRow (option Period))) (p : Period) :
  group_total p (omap (λ r, (λ p, (p, TotalPrice r)) <$> Month r) df) =
  sum (TotalPrice <$> filter (λ r, Month r = Some p) df).
Proof.
  unfold group_total. f_equal.
  induction df as [|r df IH]; [done|].
  rewrite line_chart_rows_cons, (filter_cons _ r).
  destruct (Month r) as [q|].
  - rewrite filter_cons. cbn [fst].
    destruct (decide (q = p)) as [->|Hne].
    + rewrite decide_True by done. rewrite !fmap_cons. cbn [snd]. by rewrite IH.
    + rewrite decide_False by congruence. exact IH.
  - rewrite decide_False by done. exact IH.
Qed.

Lemma sorted_periods_strict {V} (tbl : list (Period * V)) :
  StronglySorted (key_le Starter.period_leb) tbl → NoDup tbl.*1 →
  StronglySorted (λ e1 e2, period_lt e1.1 e2.1) tbl.
Proof.
  induction 1 as [|e tbl Hs IH Hall]; [constructor|].
  rewrite fmap_cons. intros [Hne Hnd]%list.NoDup_cons.
  constructor; [by apply IH|].
  apply list.Forall_forall. intros e' He'. rewrite list.Forall_forall in Hall.
  apply period_leb_ne_lt; [by apply Hall|].
  intros Heq. apply Hne. rewrite Heq. apply list_elem_of_fmap. by exists e'.
Qed.

Lemma month_names_strict (groups : list (Period * Qc)) :
  Forall (λ e, four_digit_year e.1) groups →
  StronglySorted (λ e1 e2, period_lt e1.1 e2.1) groups →
  StronglySorted key_lt (prod_map month_name id <$> groups).
Proof.
  intros Hfour. induction 1 as [|e groups Hs IH Hall]; [constructor|].
  apply list.Forall_cons in Hfour as [He Hfour].
  rewrite fmap_cons. constructor; [by apply IH|].
  apply list.Forall_fmap, list.Forall_forall. intros e' He'.
  rewrite list.Forall_forall in Hall, Hfour.
  unfold key_lt. simpl. apply month_name_lt; [done | by apply Hfour | by apply Hall].
Qed.

Lemma key_lt_NoDup {V} (tbl : list (string * V)) :
  StronglySorted key_lt tbl → NoDup tbl.*1.
Proof.
  induction 1 as [|e tbl Hs IH Hall]; [constructor|].
  rewrite fmap_cons. constructor; [|exact IH].
  intros Hin. apply list_elem_of_fmap in Hin as (e' & Heq & He').
  rewrite list.Forall_forall in Hall. specialize (Hall _ He').
  unfold key_lt, String.ltb in Hall. by rewrite Heq, string_compare_refl in Hall.
Qed.

Lemma create_line_chart_report_totals (df : list (FeatureRow (option Period))) :
  report_totals_of df (Starter.create_line_chart df).
Proof.
  unfold Starter.create_line_chart.
  set (rows := omap (λ r, (λ p, (p, TotalPrice r)) <$> Month r) df).
  destruct (groupby_sum_spec Starter.period_leb period_leb_total period_leb_trans rows)
    as (Hnd & Hkeys & Hsums & Hsorted).
  pose proof (sorted_periods_strict _ Hsorted Hnd) as Hstrict.
  split.
  - exists (groupby_sum Starter.period_leb rows). split; [done|]. split; [done|].
    split; [|split].
    + intros p. rewrite Hkeys. apply line_chart_rows_keys.
    + intros p s Hin. rewrite (Hsums _ _ Hin). apply line_chart_rows_total.
    + exact Hstrict.
  - intros Hfour.
    assert (Hs : StronglySorted key_lt
                   (prod_map month_name id <$> groupby_sum Starter.period_leb rows)).
    { apply month_names_strict; [|exact Hstrict].
      apply list.Forall_forall. intros [p s] Hin. simpl.
      assert (Hp : Some p ∈ Month <$> df).
      { apply line_chart_rows_keys. fold rows. apply Hkeys.
        apply list_elem_of_fmap. by exists (p, s). }
      apply list_elem_of_fmap in Hp as (r & Hr & Hin').
      rewrite list.Forall_forall in Hfour. specialize (Hfour _ Hin').
      by rewrite <- Hr in Hfour. }
    split; [by apply key_lt_NoDup | exact Hs].
Qed.

(** C4: the period-totals series has one entry for each month that occurs
    in the subset and no other, the entry being the sum of the line totals
    of the rows of that month, and the months are in strictly ascending
    lexicographic order of their keys.  This holds for the line chart of
    the dashboard, for every table and selection, and for the line chart
    of the report, whose groups are sorted as periods before the keys are
    written as zero-padded year-month strings. *)
Theorem monthly_sales_one_sum_per_month_ascending :
  (∀ (df : list (FeatureRow string)) (selected_months : list string),
     period_totals_of
       (DS.isin_months df selected_months)
       (DS.monthly_sales (DS.update_dashboard df selected_months))) ∧
  (∀ df : list (FeatureRow (option Period)),
     report_totals_of df (Starter.create_line_chart df)).
Proof.
  split.
  - intros df selected_months. apply monthly_sales_period_totals.
  - apply create_line_chart_report_totals.
Qed.

(** ** Aggregate consistency *)



Lemma insert_sorted_Permutation {K} (leb : K → K → bool) (k : K) (l : list K) :
  insert_sorted leb k l ≡ₚ k :: l.
Proof.
  induction l as [|k' l IH]; simpl; [done|].
  destruct (leb k k'); [done|]. rewrite IH. apply perm_swap.
Qed.

Lemma sorted_Permutation {K} (leb : K → K → bool) (l : list K) : sorted leb l ≡ₚ l.
Proof.
  induction l as [|k l IH]; simpl; [done|].
  rewrite insert_sorted_Permutation. by constructor.
Qed.

Lemma filter_all {B} (P : B → Prop) `{∀ x, Decision (P x)} (l : list B) :
  Forall P l → filter P l = l.
Proof.
  induction 1 as [|x l Hx Hl IH]; [done|]. rewrite filter_cons_True by done. by rewrite IH.
Qed.

(** The initial selection of the dropdown selects every row. *)
Lemma isin_all_months (df : list (FeatureRow string)) :
  DS.isin_months df (DS.months df) = df.
Proof.
  unfold DS.isin_months, DS.months. apply filter_all.
  apply list.Forall_forall. intros r Hr.
  rewrite sorted_Permutation, elem_of_unique. apply list_elem_of_fmap. by exists r.
Qed.



(** ** Binary64: one rounding per operation *)

Section binary64_rounding.
Local Open Scope Z_scope.



















End binary64_rounding.



(** ** The record loader: [drop_duplicates] then [dropna] *)

Lemma load_and_prepare_data_clean (lib : DateLibrary) (csv : list Row) :
  DS.load_and_prepare_data lib csv =
  match array_to_datetime (timestamp_parser lib (Starter.clean_data csv))
          (InvoiceDate <$> Starter.clean_data csv) with
  | Ok dates => Ok (zip_with (with_features month_str) (Starter.clean_data csv) dates)
  | Raise e => Raise e
  end.
Proof. reflexivity. Qed.

Lemma load_and_prepare_data_derived (lib : DateLibrary) (csv : list Row)
    (df : list (FeatureRow string)) :
  DS.load_and_prepare_data lib csv = Ok df →
  Forall2 (derived_from (timestamp_parser lib (Starter.clean_data csv)) month_str)
          (Starter.clean_data csv) df.
Proof.
  rewrite load_and_prepare_data_clean.
  destruct (array_to_datetime _ _) as [dates|e] eqn:Hd; [|done].
  intros [= <-]. by apply zip_with_features_derived.
Qed.

(** C8: the table the loader produces has no two equal rows and no row
    with a missing cell; its rows are rows of the file, unchanged and in
    the order of the file, and every row of the file without a missing
    cell is in it.  The dashboard derives its features from this table. *)
Theorem loader_drops_duplicates_and_incomplete_rows (csv : list Row) :
  NoDup (Starter.clean_data csv) ∧
  Forall notna (Starter.clean_data csv) ∧
  (Starter.clean_data csv) `sublist_of` csv ∧
  (∀ r, r ∈ csv ∧ notna r ↔ r ∈ Starter.clean_data csv) ∧
  (∀ lib df,
     DS.load_and_prepare_data lib csv = Ok df →
     Forall2 (derived_from (timestamp_parser lib (Starter.clean_data csv)) month_str)
             (Starter.clean_data csv) df).
Proof.
  unfold Starter.clean_data, dropna, drop_duplicates.
  split; [|split; [|split; [|split]]].
  - eapply sublist_NoDup; [apply NoDup_unique | apply sublist_filter].
  - apply list.Forall_forall. intros r Hr. by apply list_elem_of_filter in Hr as [Hr _].
  - etransitivity; [apply sublist_filter | apply unique_from_sublist].
  - intros r. rewrite list_elem_of_filter, elem_of_unique. tauto.
  - intros lib df. apply load_and_prepare_data_derived.
Qed.

(** ** The feature deriver *)

Lemma prepare_features_loaded (lib : DateLibrary) (h : Starter.heap) (df : Starter.ref)
    (rows : list Row) :
  h !! df = Some (Starter.Loaded rows) →
  Starter.prepare_features lib h df =
  match array_to_datetime (timestamp_parser lib rows) (InvoiceDate <$> rows) with
  | Ok dates =>
      Some (Ok df, <[df := Starter.Featured (zip_with (with_features to_period) rows dates)]> h)
  | Raise e => Some (Raise e, h)
  end.
Proof.
  intros Hdf. unfold Starter.prepare_features. rewrite Hdf. simpl.
  unfold to_datetime, timestamp_parser. by destruct (array_to_datetime _ _).
Qed.


Lemma analyse_and_report_featured (h : Starter.heap) (df : Starter.ref)
    (rows : list (FeatureRow (option Period))) :
  h !! df = Some (Starter.Featured rows) →
  Starter.analyse_and_report h df = Some (Starter.report rows, h).
Proof. intros Hdf. unfold Starter.analyse_and_report. by rewrite Hdf. Qed.

(** [main] in terms of the cleaned file. *)
Lemma main_clean (lib : DateLibrary) (csv : list Row) :
  Starter.main lib csv =
  match array_to_datetime (timestamp_parser lib (Starter.clean_data csv))
          (InvoiceDate <$> Starter.clean_data csv) with
  | Ok dates =>
      Some (Starter.report (zip_with (with_features to_period) (Starter.clean_data csv) dates))
  | Raise e => Some (Raise e)
  end.
Proof.
  unfold Starter.main.
  rewrite (prepare_features_loaded _ _ 1 (Starter.clean_data csv)) by done.
  destruct (array_to_datetime _ _) as [dates|e]; [|done].
  by rewrite (analyse_and_report_featured _ _
                (zip_with (with_features to_period) (Starter.clean_data csv) dates)).
Qed.

(** C9, as the specification states it, fails: of two dates written in two
    formats the second is rejected, because [pd.to_datetime] reads the
    whole column in the format of the first; yet each of the two is a date
    the library parses. *)
Lemma deriver_raises_on_dates_in_two_formats :
  ¬ ((∃ e, Starter.prepare_features iso_and_us [Starter.Loaded dates_in_two_formats] 0 =
           Some (Raise e, [Starter.Loaded dates_in_two_formats])) ↔
     Exists (not_a_date iso_and_us) (InvoiceDate <$> dates_in_two_formats)).
Proof.
  intros [Hraise _].
  assert (Hno : Exists (not_a_date iso_and_us) (InvoiceDate <$> dates_in_two_formats)).
  { apply Hraise. eexists. reflexivity. }
  apply Exists_cons in Hno as [Hno|Hno]; [|apply Exists_cons in Hno as [Hno|Hno]].
  - destruct Hno as (s & [= <-] & Hd & _). vm_compute in Hd. discriminate.
  - destruct Hno as (s & [= <-] & Hd & _). vm_compute in Hd. discriminate.
  - inversion Hno.
Qed.

(** C9 (amended): the feature deriver raises exactly when the parser of
    the column rejects the timestamp of some row, the parser being the
    strict one of the format guessed from the first timestamp, or the
    lenient one when no format is guessed.  It raises an invalid
    timestamp, whenever some timestamp is no date at all, and then nothing
    has been assigned.  When the parser rejects no timestamp the deriver
    returns the table with its features, one derived row per row.  This
    holds for [prepare_features] on a loaded table and for the derivation
    inside [load_and_prepare_data]. *)
Theorem deriver_raises_iff_timestamp_rejected (lib : DateLibrary) :
  (∀ (h : Starter.heap) (df : Starter.ref) (rows : list Row),
     h !! df = Some (Starter.Loaded rows) →
     ((∃ s, Starter.prepare_features lib h df = Some (Raise (InvalidTimestamp s), h)) ↔
      Exists (unparseable (timestamp_parser lib rows)) (InvoiceDate <$> rows)) ∧
     (Exists (not_a_date lib) (InvoiceDate <$> rows) →
      ∃ s, Starter.prepare_features lib h df = Some (Raise (InvalidTimestamp s), h)) ∧
     (¬ Exists (unparseable (timestamp_parser lib rows)) (InvoiceDate <$> rows) →
      ∃ rows', Starter.prepare_features lib h df =
                 Some (Ok df, <[df := Starter.Featured rows']> h) ∧
               Forall2 (derived_from (timestamp_parser lib rows) to_period) rows rows')) ∧
  (∀ csv : list Row,
     ((∃ s, DS.load_and_prepare_data lib csv = Raise (InvalidTimestamp s)) ↔
      Exists (unparseable (timestamp_parser lib (Starter.clean_data csv)))
             (InvoiceDate <$> Starter.clean_data csv)) ∧
     (Exists (not_a_date lib) (InvoiceDate <$> Starter.clean_data csv) →
      ∃ s, DS.load_and_prepare_data lib csv = Raise (InvalidTimestamp s)) ∧
     (¬ Exists (unparseable (timestamp_parser lib (Starter.clean_data csv)))
               (InvoiceDate <$> Starter.clean_data csv) →
      ∃ df, DS.load_and_prepare_data lib csv = Ok df ∧
            Forall2 (derived_from (timestamp_parser lib (Starter.clean_data csv)) month_str)
                    (Starter.clean_data csv) df)).
Proof.
  split.
  - intros h df rows Hdf. rewrite (prepare_features_loaded _ _ _ _ Hdf).
    assert (Hiff : (∃ s, match array_to_datetime (timestamp_parser lib rows)
                                 (InvoiceDate <$> rows) with
                         | Ok dates =>
                             Some (Ok df, <[df := Starter.Featured
                                     (zip_with (with_features to_period) rows dates)]> h)
                         | Raise e => Some (Raise e, h)
                         end = Some (Raise (InvalidTimestamp s), h)) ↔
                   Exists (unparseable (timestamp_parser lib rows)) (InvoiceDate <$> rows)).
    { rewrite <- array_to_datetime_invalid.
      destruct (array_to_datetime _ _) as [dates|e]; split.
      - intros [s Hs]. discriminate.
      - intros [s Hs]. discriminate.
      - intros [s [= ->]]. by exists s.
      - intros [s [= ->]]. by exists s. }
    split; [exact Hiff|]. split.
    + intros Hno. apply Hiff. eapply Exists_impl; [|exact Hno].
      intros c. apply not_a_date_unparseable.
    + intros Hno. destruct (array_to_datetime _ _) as [dates|e] eqn:Hd.
      * eexists. split; [done|]. by apply zip_with_features_derived.
      * exfalso. apply Hno, array_to_datetime_raise. by exists e.
  - intros csv. rewrite load_and_prepare_data_clean.
    assert (Hiff : (∃ s, match array_to_datetime (timestamp_parser lib (Starter.clean_data csv))
                                 (InvoiceDate <$> Starter.clean_data csv) with
                         | Ok dates =>
                             Ok (zip_with (with_features month_str) (Starter.clean_data csv) dates)
                         | Raise e => Raise e
                         end = Raise (InvalidTimestamp s)) ↔
                   Exists (unparseable (timestamp_parser lib (Starter.clean_data csv)))
                          (InvoiceDate <$> Starter.clean_data csv)).
    { rewrite <- array_to_datetime_invalid.
      destruct (array_to_datetime _ _) as [dates|e]; split.
      - intros [s Hs]. discriminate.
      - intros [s Hs]. discriminate.
      - intros [s [= ->]]. by exists s.
      - intros [s [= ->]]. by exists s. }
    split; [exact Hiff|]. split.
    + intros Hno. apply Hiff. eapply Exists_impl; [|exact Hno].
      intros c. apply not_a_date_unparseable.
    + intros Hno. destruct (array_to_datetime _ _) as [dates|e] eqn:Hd.
      * eexists. split; [done|]. by apply zip_with_features_derived.
      * exfalso. apply Hno, array_to_datetime_raise. by exists e.
Qed.



(** ** Returns *)

Lemma isin_months_priced (lib : DateLibrary) (csv : list Row) (df : list (FeatureRow string))
    (selected_months : list string) :
  DS.load_and_prepare_data lib csv = Ok df →
  Forall priced (DS.isin_months df selected_months).
Proof.
  intros Hload. apply load_and_prepare_data_derived in Hload.
  assert (Hall : Forall priced df).
  { assert (Hn : Forall notna (Starter.clean_data csv)).
    { apply list.Forall_forall. intros r Hr.
      by apply list_elem_of_filter in Hr as [Hr _]. }
    generalize dependent (timestamp_parser lib (Starter.clean_data csv)).
    intros parse Hload.
    induction Hload as [|r r' rows df Hr Hrows IH]; [constructor|].
    apply list.Forall_cons in Hn as [Hn Hns].
    constructor; [by eapply derived_from_priced | by apply IH]. }
  apply list.Forall_forall. intros r Hr. rewrite list.Forall_forall in Hall.
  apply Hall. by apply list_elem_of_filter in Hr as [_ Hr].
Qed.

(** C10: rows with a negative quantity are kept.  For every table the
    pipeline produces and every selection, the subset is made of all the
    rows of the selected months, whatever their quantity, and the total
    revenue is the plain sum of quantity times unit price over the subset.
    With one sale and one larger return, the total revenue, the average
    sale and the entry of the month are negative. *)
Theorem returns_are_included_in_every_metric :
  (∀ lib (csv : list Row) (df : list (FeatureRow string))
     (selected_months : list string),
     DS.load_and_prepare_data lib csv = Ok df →
     (∀ r, r ∈ df ∧ Month r ∈ selected_months ↔ r ∈ DS.isin_months df selected_months) ∧
     DS.total_revenue (DS.kpis (DS.update_dashboard df selected_months)) =
     plain_revenue (DS.isin_months df selected_months)) ∧
  (∃ df, DS.load_and_prepare_data iso_and_us sale_and_return = Ok df ∧
     (DS.total_revenue (DS.kpis (DS.update_dashboard df (DS.months df))) < 0)%Qc ∧
     (∃ a, DS.average_sale (DS.kpis (DS.update_dashboard df (DS.months df))) = Some a ∧
           (a < 0)%Qc) ∧
     (∃ m s, (m, s) ∈ DS.monthly_sales (DS.update_dashboard df (DS.months df)) ∧
             (s < 0)%Qc)).
Proof.
  split.
  - intros lib csv df selected_months Hload. split.
    + intros r. unfold DS.isin_months. rewrite list_elem_of_filter. tauto.
    + unfold DS.update_dashboard. cbn [DS.kpis DS.calculate_kpis DS.total_revenue].
      apply sum_priced. by eapply isin_months_priced.
  - destruct (DS.load_and_prepare_data iso_and_us sale_and_return) as [df|e] eqn:Hload;
      [|vm_compute in Hload; discriminate].
    exists df. split; [done|].
    vm_compute in Hload. injection Hload as <-.
    split; [vm_compute; reflexivity|]. split.
    + eexists. split; [reflexivity|]. vm_compute. reflexivity.
    + destruct (DS.monthly_sales _) as [|[m s] l] eqn:Hms; [vm_compute in Hms; discriminate|].
      exists m, s. split; [left|].
      vm_compute in Hms. injection Hms as <- <- _. vm_compute. reflexivity.
Qed.

(** ** The theorems at concrete tables *)

(** C2 on two lines of one order: two rows, one order. *)
Lemma order_count_two_lines_one_order :
  length [heart_line; lantern_line] = 2 ∧
  DS.total_orders (DS.calculate_kpis [heart_line; lantern_line]) = 1.
Proof.
  split; [reflexivity|].
  apply (proj1 (proj2 (order_count_is_distinct_orders [heart_line; lantern_line]))
           ["536365"%string]).
  - apply NoDup_singleton.
  - intros x. rewrite list_elem_of_singleton. split.
    + intros ->. exists heart_line. split; [by left | reflexivity].
    + intros (r & Hr & Hx).
      apply elem_of_cons in Hr as [->|Hr]; [by injection Hx|].
      apply list_elem_of_singleton in Hr as ->. by injection Hx.
Defined.

(** C8 on a file with a repeated row and a row without a price. *)
Lemma loader_on_file_with_duplicate_and_gap :
  ∃ df, DS.load_and_prepare_data iso_and_us file_with_duplicate_and_gap = Ok df ∧
        Forall2 (derived_from (timestamp_parser iso_and_us
                                 (Starter.clean_data file_with_duplicate_and_gap)) month_str)
                (Starter.clean_data file_with_duplicate_and_gap) df.
Proof.
  eexists. split; [reflexivity|].
  apply (loader_drops_duplicates_and_incomplete_rows file_with_duplicate_and_gap).
  reflexivity.
Defined.

(** C9 (amended) on a table whose timestamps are written in one format:
    the deriver returns the table with its features. *)
Lemma deriver_on_sale_and_return :
  [Starter.Loaded sale_and_return] !! 0 = Some (Starter.Loaded sale_and_return) ∧
  ¬ Exists (unparseable (timestamp_parser iso_and_us sale_and_return))
           (InvoiceDate <$> sale_and_return) ∧
  ∃ rows', Starter.prepare_features iso_and_us [Starter.Loaded sale_and_return] 0 =
             Some (Ok 0, [Starter.Featured rows']) ∧
           Forall2 (derived_from (timestamp_parser iso_and_us sale_and_return) to_period)
                   sale_and_return rows'.
Proof.
  split; [reflexivity|].
  assert (Hno : ¬ Exists (unparseable (timestamp_parser iso_and_us sale_and_return))
                         (InvoiceDate <$> sale_and_return)).
  { apply (bool_decide_unpack _). vm_compute. exact I. }
  split; [exact Hno|].
  apply (proj2 (proj2 (proj1 (deriver_raises_iff_timestamp_rejected iso_and_us)
           [Starter.Loaded sale_and_return] 0 sale_and_return eq_refl))).
  exact Hno.
Defined.


(** C10 on a sale and a return of one month. *)
Lemma revenue_of_sale_and_return :
  ∃ df, DS.load_and_prepare_data iso_and_us sale_and_return = Ok df ∧
        DS.total_revenue (DS.kpis (DS.update_dashboard df ["2010-12"%string])) =
        plain_revenue (DS.isin_months df ["2010-12"%string]).
Proof.
  eexists. split; [reflexivity|].
  refine (proj2 (proj1 returns_are_included_in_every_metric
                       iso_and_us sale_and_return _ _ _)).
  reflexivity.
Defined.

(** C4 on a report table of two months: the keys come out ascending. *)
Lemma line_chart_of_report_rows :
  Forall (λ r, four_digit_cell (Month r)) report_rows ∧
  NoDup (Starter.create_line_chart report_rows).*1 ∧
  StronglySorted key_lt (Starter.create_line_chart report_rows).
Proof.
  assert (Hfour : Forall (λ r, four_digit_cell (Month r)) report_rows).
  { apply (bool_decide_unpack _). vm_compute. exact I. }
  split; [exact Hfour|].
  exact (proj2 (proj2 monthly_sales_one_sum_per_month_ascending report_rows) Hfour).
Defined.


(** * Further properties of the two scripts *)

(** ** The dropdown of the dashboard *)

Section sorted_facts.
Context {K : Type} (leb : K → K → bool).
Hypothesis leb_total : ∀ a b, leb a b = true ∨ leb b a = true.
Hypothesis leb_trans : ∀ a b c, leb a b = true → leb b c = true → leb a c = true.

Lemma insert_sorted_sorted (k : K) (l : list K) :
  StronglySorted (λ a b, leb a b = true) l →
  StronglySorted (λ a b, leb a b = true) (insert_sorted leb k l).
Proof using leb_total leb_trans.
  induction 1 as [|k' l Hs IH Hall]; simpl.
  - repeat constructor.
  - destruct (leb k k') eqn:Hle.
    + constructor; [by constructor|]. constructor; [exact Hle|].
      eapply Forall_impl; [|exact Hall]. intros a Ha. by eapply leb_trans.
    + constructor; [exact IH|].
      rewrite insert_sorted_Permutation. constructor; [|exact Hall].
      destruct (leb_total k k'); [congruence | done].
Qed.

Lemma sorted_sorted (l : list K) : StronglySorted (λ a b, leb a b = true) (sorted leb l).
Proof using leb_total leb_trans.
  induction l as [|k l IH]; simpl; [constructor|]. by apply insert_sorted_sorted.
Qed.

End sorted_facts.

Lemma sorted_strings_strict (l : list string) :
  StronglySorted (λ a b, String.leb a b = true) l → NoDup l →
  StronglySorted (λ a b, String.ltb a b = true) l.
Proof.
  induction 1 as [|k l Hs IH Hall]; [constructor|].
  intros [Hne Hnd]%list.NoDup_cons. constructor; [by apply IH|].
  apply list.Forall_forall. intros k' Hk'. rewrite list.Forall_forall in Hall.
  apply string_leb_ne_ltb; [by apply Hall|]. by intros ->.
Qed.

(** X1: the months offered by the dropdown are the months that occur in
    the table, each once, in strictly ascending order of the strings; the
    label and the value of an option are the same month, and all options
    are selected to begin with. *)
Theorem dropdown_months_are_the_months_of_the_table (df : list (FeatureRow string)) :
  (∀ m, m ∈ DS.value (DS.month_filter df) ↔ m ∈ Month <$> df) ∧
  NoDup (DS.value (DS.month_filter df)) ∧
  StronglySorted (λ a b, String.ltb a b = true) (DS.value (DS.month_filter df)) ∧
  (DS.options (DS.month_filter df)).*1 = DS.value (DS.month_filter df) ∧
  (DS.options (DS.month_filter df)).*2 = DS.value (DS.month_filter df).
Proof.
  cbn [DS.month_filter DS.value DS.options]. unfold DS.months.
  assert (Hnd : NoDup (sorted String.leb (unique (Month <$> df)))).
  { rewrite sorted_Permutation. apply NoDup_unique. }
  split; [|split; [|split; [|split]]].
  - intros m. by rewrite sorted_Permutation, elem_of_unique.
  - exact Hnd.
  - apply sorted_strings_strict; [|exact Hnd].
    apply sorted_sorted; [apply String.leb_total | apply string_leb_trans].
  - rewrite <- list_fmap_compose. apply list_fmap_id.
  - rewrite <- list_fmap_compose. apply list_fmap_id.
Qed.

(** X2: when the page loads, every row of the table is selected: the three
    outputs of the callback are those of the unfiltered table. *)
Theorem initial_view_is_the_whole_table (df : list (FeatureRow string)) :
  (DS.create_dashboard df).2 =
  {| DS.kpis := DS.calculate_kpis df;
     DS.top_products := head 10 (value_counts (fDescription <$> df));
     DS.monthly_sales := groupby_sum String.leb ((λ r, (Month r, TotalPrice r)) <$> df) |}.
Proof.
  unfold DS.create_dashboard, DS.update_dashboard. cbn [snd DS.month_filter DS.value].
  by rewrite isin_all_months.
Qed.

(** ** The selection *)

Lemma isin_months_ext (df : list (FeatureRow string)) (sel sel' : list string) :
  (∀ m, m ∈ Month <$> df → (m ∈ sel ↔ m ∈ sel')) →
  DS.isin_months df sel = DS.isin_months df sel'.
Proof.
  unfold DS.isin_months. induction df as [|r df IH]; intros Hsel; [done|].
  rewrite !(filter_cons _ r).
  assert (Hr : Month r ∈ sel ↔ Month r ∈ sel') by (apply Hsel; rewrite fmap_cons; left).
  rewrite IH by (intros m Hm; apply Hsel; rewrite fmap_cons; by right).
  destruct (decide (Month r ∈ sel)), (decide (Month r ∈ sel')); tauto.
Qed.

(** X3: the callback looks at the selection only as a set of months of the
    table: two selections that contain the same months of the table, in
    whatever order, with or without repetitions or months the table does
    not have, give the same outputs. *)
Theorem selection_counts_as_a_set
    (df : list (FeatureRow string)) (selected_months selected_months' : list string) :
  (∀ m, m ∈ Month <$> df → (m ∈ selected_months ↔ m ∈ selected_months')) →
  DS.update_dashboard df selected_months = DS.update_dashboard df selected_months'.
Proof.
  intros Hsel. unfold DS.update_dashboard. by rewrite (isin_months_ext _ _ _ Hsel).
Qed.

(** ** Cleaning *)

Section unique_filter.
Context {A : Type} `{EqDecision A} (P : A → Prop) `{∀ x, Decision (P x)}.

Lemma filter_unique_from_seen (s1 s2 col : list A) :
  (∀ y, P y → (y ∈ s1 ↔ y ∈ s2)) →
  filter P (unique_from s1 col) = filter P (unique_from s2 col).
Proof.
  revert s1 s2. induction col as [|x col IH]; intros s1 s2 Hs; [done|].
  cbn [unique_from].
  assert (Hcons : ∀ y, P y → (y ∈ x :: s1 ↔ y ∈ x :: s2)).
  { intros y Hy. rewrite !elem_of_cons. specialize (Hs y Hy). tauto. }
  destruct (decide (P x)) as [Hx|Hx].
  - rewrite (bool_decide_ext (x ∈ s1) (x ∈ s2)) by by apply Hs.
    case_bool_decide; [by apply IH|].
    rewrite !filter_cons_True by done. f_equal. by apply IH.
  - transitivity (filter P (unique_from (x :: s1) col)).
    + case_bool_decide; [|by rewrite filter_cons_False].
      apply IH. intros y Hy. rewrite elem_of_cons. split; [tauto|].
      intros [->|?]; [done|done].
    + transitivity (filter P (unique_from (x :: s2) col)); [by apply IH|].
      case_bool_decide; [|by rewrite filter_cons_False].
      apply IH. intros y Hy. rewrite elem_of_cons. split; [|tauto].
      intros [->|?]; [done|done].
Qed.

Lemma unique_from_filter (seen col : list A) :
  unique_from seen (filter P col) = filter P (unique_from seen col).
Proof.
  revert seen. induction col as [|x col IH]; intros seen; [done|].
  rewrite (filter_cons _ x). cbn [unique_from]. destruct (decide (P x)) as [Hx|Hx].
  - cbn [unique_from]. case_bool_decide; [apply IH|].
    rewrite filter_cons_True by done. f_equal. apply IH.
  - rewrite IH. case_bool_decide; [done|].
    rewrite filter_cons_False by done.
    apply filter_unique_from_seen. intros y Hy. rewrite elem_of_cons.
    split; [tauto|]. intros [->|?]; done.
Qed.

End unique_filter.

Lemma unique_from_NoDup {A} `{EqDecision A} (seen col : list A) :
  NoDup col → (∀ x, x ∈ col → x ∉ seen) → unique_from seen col = col.
Proof.
  intros Hnd. revert seen. induction Hnd as [|x col Hx Hnd IH]; intros seen Hseen; [done|].
  cbn [unique_from]. rewrite bool_decide_false by (apply Hseen; left). f_equal.
  apply IH. intros y Hy. rewrite not_elem_of_cons. split.
  - intros ->. done.
  - apply Hseen. by right.
Qed.

Lemma filter_filter_same {A} (P : A → Prop) `{∀ x, Decision (P x)} (l : list A) :
  filter P (filter P l) = filter P l.
Proof.
  apply filter_all, list.Forall_forall. intros x Hx.
  by apply list_elem_of_filter in Hx as [Hx _].
Qed.

Lemma clean_data_idempotent (csv : list Row) :
  Starter.clean_data (Starter.clean_data csv) = Starter.clean_data csv.
Proof.
  unfold Starter.clean_data, dropna, drop_duplicates, unique.
  rewrite (unique_from_filter notna [] (unique_from [] csv)).
  rewrite filter_filter_same. f_equal.
  apply unique_from_NoDup; [apply NoDup_unique_from|].
  intros x _. apply not_elem_of_nil.
Qed.

(** X4: cleaning a cleaned table changes nothing, and the two steps of the
    cleaning can be done in either order: dropping the duplicates and then
    the incomplete rows gives the table that dropping the incomplete rows
    and then the duplicates gives. *)
Theorem cleaning_is_idempotent_and_its_steps_commute (csv : list Row) :
  Starter.clean_data (Starter.clean_data csv) = Starter.clean_data csv ∧
  dropna (drop_duplicates csv) = drop_duplicates (dropna csv).
Proof.
  split; [apply clean_data_idempotent|].
  unfold dropna, drop_duplicates, unique. symmetry. apply unique_from_filter.
Qed.


(** ** Deriving the features twice *)

Lemma with_features_again_with_features {M} (to_month : option Timestamp → M)
    (r : Row) (t : option Timestamp) :
  with_features_again to_month (with_features to_month r t) = with_features to_month r t.
Proof. reflexivity. Qed.

Lemma with_features_again_zip {M} (to_month : option Timestamp → M)
    (rows : list Row) (dates : list (option Timestamp)) :
  with_features_again to_month <$> zip_with (with_features to_month) rows dates =
  zip_with (with_features to_month) rows dates.
Proof.
  revert dates. induction rows as [|r rows IH]; intros [|t dates]; try done.
  cbn [zip_with]. rewrite fmap_cons, with_features_again_with_features. f_equal. apply IH.
Qed.

Lemma prepare_features_featured (lib : DateLibrary) (h : Starter.heap) (df : Starter.ref)
    (rows : list (FeatureRow (option Period))) :
  h !! df = Some (Starter.Featured rows) →
  Starter.prepare_features lib h df =
  Some (Ok df, <[df := Starter.Featured (with_features_again to_period <$> rows)]> h).
Proof. intros Hdf. unfold Starter.prepare_features. by rewrite Hdf. Qed.

(** X6: [prepare_features] can be called again on the table it has
    updated: the second call returns the same table and leaves every
    table of the store as the first call left it. *)
Theorem prepare_features_twice
    (lib : DateLibrary)
    (h h' : Starter.heap) (df returned : Starter.ref) (rows : list Row) :
  h !! df = Some (Starter.Loaded rows) →
  Starter.prepare_features lib h df = Some (Ok returned, h') →
  Starter.prepare_features lib h' returned = Some (Ok returned, h').
Proof.
  intros Hdf. rewrite (prepare_features_loaded _ _ _ _ Hdf).
  destruct (array_to_datetime _ _) as [dates|e]; [|done].
  intros [= <- <-].
  rewrite (prepare_features_featured _ _ _ (zip_with (with_features to_period) rows dates)).
  - rewrite with_features_again_zip. unfold Starter.heap, Starter.ref in *.
    by rewrite list_insert_insert_eq.
  - apply list_lookup_insert_eq. by eapply lookup_lt_Some.
Qed.

(** ** The average sale *)

Lemma remove_na_all_present {A} (col : list (option A)) :
  Forall is_Some col → length (remove_na col) = length col.
Proof.
  induction 1 as [|o col [x ->] Hcol IH]; [done|]. simpl. by rewrite IH.
Qed.

Lemma mean_all_present (col : list (option Qc)) :
  Forall is_Some col → col ≠ [] →
  mean col = Some (sum col / Q2Qc (inject_Z (Z.of_nat (length col))))%Qc.
Proof.
  intros Hall Hne. unfold mean, sum.
  pose proof (remove_na_all_present col Hall) as Hlen.
  destruct (remove_na col) as [|x xs] eqn:Hcol.
  - destruct col; [done | simpl in Hlen; lia].
  - by rewrite Hlen.
Qed.

Lemma priced_total_present {M} (df : list (FeatureRow M)) :
  Forall priced df → Forall is_Some (TotalPrice <$> df).
Proof.
  intros Hall. apply list.Forall_fmap. eapply Forall_impl; [|exact Hall].
  intros r (q & p & _ & _ & Ht). simpl. rewrite Ht. by eexists.
Qed.

(** X7: on a table of the pipeline the average sale is the total revenue
    divided by the number of rows of the subset, line items and not
    orders; it is NaN exactly when the subset has no row. *)
Theorem average_sale_is_revenue_per_row
    (lib : DateLibrary) (csv : list Row)
    (df : list (FeatureRow string)) (selected_months : list string) :
  DS.load_and_prepare_data lib csv = Ok df →
  DS.average_sale (DS.kpis (DS.update_dashboard df selected_months)) =
  if decide (DS.isin_months df selected_months = []) then None
  else Some (DS.total_revenue (DS.kpis (DS.update_dashboard df selected_months)) /
             row_count (DS.isin_months df selected_months))%Qc.
Proof.
  intros Hload. unfold DS.update_dashboard.
  cbn [DS.kpis DS.calculate_kpis DS.average_sale DS.total_revenue].
  destruct (decide (DS.isin_months df selected_months = [])) as [->|Hne]; [done|].
  rewrite mean_all_present.
  - unfold row_count. by rewrite length_fmap.
  - apply priced_total_present. by eapply isin_months_priced.
  - by destruct (DS.isin_months df selected_months).
Qed.

(** ** The entries of the line chart *)

Lemma filter_month_isin (df : list (FeatureRow string)) (sel : list string) (m : string) :
  m ∈ sel →
  filter (λ r, Month r = m) (DS.isin_months df sel) = filter (λ r, Month r = m) df.
Proof.
  intros Hm. unfold DS.isin_months. induction df as [|r df IH]; [done|].
  rewrite !(filter_cons _ r). destruct (decide (Month r ∈ sel)) as [Hin|Hout].
  - rewrite (filter_cons _ r). by rewrite IH.
  - rewrite IH. destruct (decide (Month r = m)) as [Heq|]; [|done].
    exfalso. apply Hout. by rewrite Heq.
Qed.

Lemma elem_of_months_isin (df : list (FeatureRow string)) (sel : list string) (m : string) :
  m ∈ Month <$> DS.isin_months df sel ↔ m ∈ sel ∧ m ∈ Month <$> df.
Proof.
  unfold DS.isin_months. rewrite !list_elem_of_fmap. split.
  - intros (r & -> & Hr). apply list_elem_of_filter in Hr as [Hs Hr].
    split; [done|]. by exists r.
  - intros (Hs & r & -> & Hr). exists r. split; [done|]. by apply list_elem_of_filter.
Qed.

(** X8: the line chart has an entry for a month exactly when the month is
    selected and occurs in the table, and the entry is the sum of the line
    totals of all the rows of that month in the table: which other months
    are selected does not change it. *)
Theorem line_chart_entry_of_a_month
    (df : list (FeatureRow string)) (selected_months : list string) (m : string) (s : Qc) :
  (m, s) ∈ DS.monthly_sales (DS.update_dashboard df selected_months) ↔
  m ∈ selected_months ∧ m ∈ Month <$> df ∧
  s = sum (TotalPrice <$> filter (λ r, Month r = m) df).
Proof.
  unfold DS.update_dashboard. cbn [DS.monthly_sales].
  destruct (monthly_sales_period_totals (DS.isin_months df selected_months))
    as [Hnd Hkeys Hsums _].
  split.
  - intros Hin.
    assert (Hm : m ∈ selected_months ∧ m ∈ Month <$> df).
    { apply elem_of_months_isin, Hkeys, list_elem_of_fmap. by exists (m, s). }
    destruct Hm as [Hsel Hm]. split; [done|]. split; [done|].
    rewrite (Hsums _ _ Hin). by rewrite filter_month_isin.
  - intros (Hsel & Hm & ->).
    assert (Hk : m ∈ Month <$> DS.isin_months df selected_months)
      by by apply elem_of_months_isin.
    apply Hkeys, list_elem_of_fmap in Hk as ([m' s'] & Heq & Hin). simpl in Heq. subst m'.
    rewrite (Hsums _ _ Hin) in Hin. by rewrite filter_month_isin in Hin.
Qed.

(** ** The order count and the selection *)

(** X10: selecting more months never lowers the order count, and never
    lowers the number of rows the figures are computed from. *)
Theorem more_months_never_fewer_orders
    (df : list (FeatureRow string)) (selected_months selected_months' : list string) :
  (∀ m, m ∈ selected_months → m ∈ selected_months') →
  DS.total_orders (DS.kpis (DS.update_dashboard df selected_months)) ≤
  DS.total_orders (DS.kpis (DS.update_dashboard df selected_months')) ∧
  length (DS.isin_months df selected_months) ≤
  length (DS.isin_months df selected_months').
Proof.
  intros Hsub. split.
  - unfold DS.update_dashboard. cbn [DS.kpis DS.calculate_kpis DS.total_orders].
    rewrite !nunique_distinct. apply subseteq_size. intros x.
    rewrite !elem_of_list_to_set, !elem_of_remove_na, !list_elem_of_fmap.
    intros (r & Hx & Hr). exists r. split; [done|].
    unfold DS.isin_months in *. rewrite list_elem_of_filter in *.
    destruct Hr as [Hs Hr]. split; [by apply Hsub | done].
  - unfold DS.isin_months. induction df as [|r df IH]; [done|].
    rewrite !(filter_cons _ r).
    destruct (decide (Month r ∈ selected_months)) as [Hin|Hout].
    + rewrite decide_True by by apply Hsub. simpl. lia.
    + destruct (decide (Month r ∈ selected_months')); simpl; lia.
Qed.

(** ** The bars of the bar chart *)




(** ** Month keys as strings and as periods *)

Lemma month_name_inj (p q : Period) :
  four_digit_year p → four_digit_year q → month_name p = month_name q → p = q.
Proof.
  intros Hp Hq Heq. pose proof (compare_month_name p q Hp Hq) as Hc.
  rewrite Heq, string_compare_refl in Hc.
  destruct p as [py pm], q as [qy qm]. simpl in Hc.
  destruct (Nat.compare_spec py qy) as [->| |]; try done.
  destruct (Nat.compare_spec pm qm) as [->| |]; done.
Qed.

Lemma month_name_leb (p q : Period) :
  four_digit_year p → four_digit_year q →
  String.leb (month_name p) (month_name q) = Starter.period_leb p q.
Proof.
  intros Hp Hq. unfold String.leb, Starter.period_leb.
  rewrite (compare_month_name p q Hp Hq).
  destruct (Nat.compare_spec (pyear p) (pyear q)) as [Heq|Hlt|Hgt].
  - rewrite Heq, Nat.ltb_irrefl, Nat.eqb_refl. simpl.
    destruct (Nat.compare_spec (pmonth p) (pmonth q)); symmetry.
    + apply Nat.leb_le. lia.
    + apply Nat.leb_le. lia.
    + apply Nat.leb_gt. lia.
  - apply Nat.ltb_lt in Hlt. by rewrite Hlt.
  - symmetry. apply orb_false_iff. split; [apply Nat.ltb_ge; lia|].
    apply andb_false_iff. left. apply Nat.eqb_neq. lia.
Qed.

Lemma add_into_month_name (tbl : list (Period * Qc)) (k : Period) (v : option Qc) :
  Forall (λ e, four_digit_year e.1) tbl → four_digit_year k →
  add_into (prod_map month_name id <$> tbl) (month_name k) v =
  prod_map month_name id <$> add_into tbl k v.
Proof.
  intros Htbl Hk. induction Htbl as [|[k' s] tbl Hk' Htbl IH]; [done|].
  rewrite fmap_cons. cbn [prod_map fst snd add_into id] in *.
  destruct (decide (k = k')) as [->|Hne].
  - by rewrite decide_True.
  - rewrite decide_False by (intros Heq; by apply Hne, month_name_inj).
    rewrite fmap_cons, IH. done.
Qed.

Lemma group_sum_month_name (rows : list (Period * option Qc)) :
  Forall (λ e, four_digit_year e.1) rows →
  group_sum (prod_map month_name id <$> rows) =
  prod_map month_name id <$> group_sum rows.
Proof.
  unfold group_sum. induction rows as [|[k0 v0] rows IH] using rev_ind; [done|].
  intros [Hrows Hkv]%list.Forall_app. rewrite list.Forall_singleton in Hkv.
  rewrite fmap_app, !foldl_app, IH by done. cbn [fmap list_fmap foldl prod_map fst snd id].
  apply add_into_month_name; [|exact Hkv].
  apply list.Forall_forall. intros [k s] Hin. simpl.
  assert (Hk : k ∈ rows.*1).
  { destruct (group_sum_spec rows) as [Hkeys _]. unfold group_sum in Hkeys.
    rewrite <- elem_of_unique, <- Hkeys. apply list_elem_of_fmap. by exists (k, s). }
  apply list_elem_of_fmap in Hk as ([k' v'] & -> & Hin').
  rewrite list.Forall_forall in Hrows. by apply (Hrows _ Hin').
Qed.

Lemma insert_key_month_name (e : Period * Qc) (tbl : list (Period * Qc)) :
  Forall (λ e, four_digit_year e.1) tbl → four_digit_year e.1 →
  insert_key String.leb (prod_map month_name id e) (prod_map month_name id <$> tbl) =
  prod_map month_name id <$> insert_key Starter.period_leb e tbl.
Proof.
  destruct e as [k v]. intros Htbl He.
  induction Htbl as [|[k' v'] tbl He' Htbl IH]; [done|].
  rewrite fmap_cons. cbn [insert_key prod_map fst snd id] in *.
  rewrite month_name_leb by done.
  destruct (Starter.period_leb k k'); [done|].
  rewrite fmap_cons. f_equal. exact IH.
Qed.

Lemma sort_index_month_name (tbl : list (Period * Qc)) :
  Forall (λ e, four_digit_year e.1) tbl →
  sort_index String.leb (prod_map month_name id <$> tbl) =
  prod_map month_name id <$> sort_index Starter.period_leb tbl.
Proof.
  induction 1 as [|e tbl He Htbl IH]; [done|].
  rewrite fmap_cons. cbn [sort_index foldr].
  fold (sort_index String.leb (prod_map month_name id <$> tbl)).
  fold (sort_index Starter.period_leb tbl).
  rewrite IH. apply insert_key_month_name; [|done].
  by rewrite sort_index_Permutation.
Qed.

(** Grouping by the month written as a string is grouping by the period. *)
Lemma groupby_sum_month_name (rows : list (Period * option Qc)) :
  Forall (λ e, four_digit_year e.1) rows →
  groupby_sum String.leb (prod_map month_name id <$> rows) =
  prod_map month_name id <$> groupby_sum Starter.period_leb rows.
Proof.
  intros Hrows. unfold groupby_sum. rewrite group_sum_month_name by done.
  apply sort_index_month_name.
  apply list.Forall_forall. intros [k s] Hin. simpl.
  assert (Hk : k ∈ rows.*1).
  { destruct (group_sum_spec rows) as [Hkeys _].
    rewrite <- elem_of_unique, <- Hkeys. apply list_elem_of_fmap. by exists (k, s). }
  apply list_elem_of_fmap in Hk as ([k' v'] & -> & Hin').
  rewrite list.Forall_forall in Hrows. by apply (Hrows _ Hin').
Qed.

(** ** The two scripts on the same file *)

Lemma derived_tables_agree (parse_datetime : string → option Timestamp) (rows : list Row)
    (dates : list (option Timestamp)) :
  (∀ s t, parse_datetime s = Some t → year t / 100 < 100 ∧ month t < 100) →
  Forall notna rows →
  array_to_datetime parse_datetime (InvoiceDate <$> rows) = Ok dates →
  TotalPrice <$> zip_with (with_features month_str) rows dates =
    TotalPrice <$> zip_with (with_features to_period) rows dates ∧
  fDescription <$> zip_with (with_features month_str) rows dates =
    fDescription <$> zip_with (with_features to_period) rows dates ∧
  (λ r, (Month r, TotalPrice r)) <$> zip_with (with_features month_str) rows dates =
    prod_map month_name id <$>
      omap (λ r, (λ p, (p, TotalPrice r)) <$> Month r)
           (zip_with (with_features to_period) rows dates) ∧
  Forall (λ e : Period * option Qc, four_digit_year e.1)
    (omap (λ r, (λ p, (p, TotalPrice r)) <$> Month r)
          (zip_with (with_features to_period) rows dates)).
Proof.
  intros Hfour Hrows. rewrite array_to_datetime_Ok, Forall2_fmap_l. intros Hdates.
  induction Hdates as [|r t rows dates Hr Hdates IH]; [by repeat split|].
  apply list.Forall_cons in Hrows as [Hn Hrows].
  destruct (IH Hrows) as (IHt & IHd & IHm & IHf).
  destruct Hn as (_ & _ & _ & [s Hs] & _). simpl in Hr. rewrite Hs in Hr. simpl in Hr.
  destruct (parse_datetime s) as [ts|] eqn:Hparse; [|done]. injection Hr as <-.
  destruct (Hfour _ _ Hparse) as [Hy Hm].
  cbn [zip_with]. rewrite line_chart_rows_cons, !fmap_cons.
  cbn [with_features Month TotalPrice fDescription to_period fmap option_fmap option_map].
  split; [by rewrite IHt|]. split; [by rewrite IHd|]. split.
  - rewrite fmap_cons, IHm. done.
  - constructor; [|done]. split; done.
Qed.

(** The bar chart has no bar only when the table has no description. *)
Lemma head_value_counts_nil (col : list (option string)) :
  head 10 (value_counts col) = [] → remove_na col = [].
Proof.
  intros Hnil. destruct (head_value_counts_top_items col) as [_ _ _ _ _ Htop].
  rewrite Hnil in Htop. destruct (remove_na col) as [|d descs]; [done|].
  destruct (Htop d) as [Hd|[Hlen _]]; [by left | inversion Hd | done].
Qed.

Lemma create_bar_chart_raises {M} (rows : list (FeatureRow M)) :
  Forall (λ r, is_Some (fDescription r)) rows →
  (Starter.create_bar_chart (Starter.descriptive_analysis rows).1.2 = Raise IndexError ∧
   rows = []) ∨
  (Starter.create_bar_chart (Starter.descriptive_analysis rows).1.2 = Ok "bar_chart.png"%string ∧
   rows ≠ []).
Proof.
  intros Hdesc. unfold Starter.descriptive_analysis. cbn [fst snd].
  destruct (head 10 (value_counts (fDescription <$> rows))) as [|e top] eqn:Htop.
  - left. split; [done|]. apply head_value_counts_nil in Htop.
    destruct rows as [|r rows]; [done|]. exfalso.
    apply list.Forall_cons in Hdesc as [[d Hd] _].
    rewrite fmap_cons, Hd in Htop. discriminate.
  - right. split; [done|]. by intros ->.
Qed.

Lemma zip_with_features_descriptions {M} (to_month : option Timestamp → M)
    (rows : list Row) (dates : list (option Timestamp)) :
  Forall notna rows →
  Forall (λ r, is_Some (fDescription r)) (zip_with (with_features to_month) rows dates).
Proof.
  intros Hrows. revert dates.
  induction Hrows as [|r rows Hr Hrows IH]; intros [|t dates]; try by constructor.
  cbn [zip_with]. constructor; [|apply IH]. by destruct Hr as (_ & Hd & _).
Qed.

(** X12: on the same file, when every year has at most four digits, the
    dashboard's first view and the report show the same figures: the same
    average sale, the same top products with the same counts, and the same
    monthly totals in the same order.  When a timestamp is rejected both
    scripts raise, on the same cell.  When no row is left after cleaning,
    the dashboard shows its empty view and the report script raises
    [IndexError] at the bar chart. *)
Theorem both_scripts_show_the_same_figures (lib : DateLibrary) (csv : list Row) :
  four_digit_years lib →
  match DS.main lib csv, Starter.main lib csv with
  | Ok view, Some (Ok report) => Starter.clean_data csv ≠ [] ∧ same_figures view report
  | Ok view, Some (Raise e) =>
      Starter.clean_data csv = [] ∧ e = IndexError ∧ view = DS.create_dashboard []
  | Raise e, Some (Raise e') => e = e'
  | _, _ => False
  end.
Proof.
  intros Hfour. unfold DS.main. rewrite main_clean, load_and_prepare_data_clean.
  destruct (array_to_datetime _ _) as [dates|e] eqn:Hd; [|done].
  assert (Hn : Forall notna (Starter.clean_data csv)).
  { apply list.Forall_forall. intros r Hr. by apply list_elem_of_filter in Hr as [Hr _]. }
  destruct (derived_tables_agree _ _ _
              (λ s t, four_digit_column_parser lib _ s t Hfour) Hn Hd)
    as (Ht & Hdesc & Hm & Hf).
  cbn [mbind result_bind mret result_ret].
  unfold Starter.report.
  destruct (create_bar_chart_raises
              (zip_with (with_features to_period) (Starter.clean_data csv) dates)
              (zip_with_features_descriptions _ _ _ Hn)) as [[Hbar Hnil]|[Hbar Hne]].
  - destruct (Starter.descriptive_analysis _) as [[average top] quantity].
    cbn [fst snd] in Hbar. rewrite Hbar. cbn [mbind result_bind].
    assert (Hclean : Starter.clean_data csv = []).
    { apply array_to_datetime_Ok, Forall2_length in Hd. rewrite length_fmap in Hd.
      destruct (Starter.clean_data csv) as [|r rows]; [done|].
      by destruct dates. }
    split; [done|]. split; [done|]. by rewrite Hclean.
  - unfold Starter.descriptive_analysis in *. cbn [fst snd] in Hbar. rewrite Hbar.
    cbn [mbind result_bind mret result_ret]. split.
    + intros Hclean. apply Hne. by rewrite Hclean.
    + unfold same_figures, DS.create_dashboard, DS.update_dashboard, Starter.create_line_chart.
      cbn [snd DS.month_filter DS.value DS.kpis DS.calculate_kpis DS.average_sale
           DS.top_products DS.monthly_sales Starter.average_sales
           Starter.orders_per_category Starter.monthly_sales].
      rewrite isin_all_months, Ht, Hdesc, Hm.
      split; [done|]. split; [done|].
      symmetry. by apply groupby_sum_month_name.
Qed.

(** ** The order of the dropdown *)

Lemma unique_from_month_name (seen col : list Period) :
  Forall four_digit_year seen → Forall four_digit_year col →
  unique_from (month_name <$> seen) (month_name <$> col) =
  month_name <$> unique_from seen col.
Proof.
  intros Hseen Hcol. revert seen Hseen.
  induction Hcol as [|p col Hp Hcol IH]; intros seen Hseen; [done|].
  rewrite fmap_cons. cbn [unique_from].
  rewrite (bool_decide_ext (month_name p ∈ month_name <$> seen) (p ∈ seen)).
  - case_bool_decide; [by apply IH|].
    rewrite fmap_cons. f_equal. rewrite <- IH by by constructor. done.
  - rewrite list_elem_of_fmap. split.
    + intros (q & Heq & Hq). rewrite list.Forall_forall in Hseen.
      by rewrite (month_name_inj p q Hp (Hseen _ Hq) Heq).
    + intros Hin. by exists p.
Qed.

Lemma insert_sorted_month_name (p : Period) (l : list Period) :
  four_digit_year p → Forall four_digit_year l →
  insert_sorted String.leb (month_name p) (month_name <$> l) =
  month_name <$> insert_sorted Starter.period_leb p l.
Proof.
  intros Hp Hl. induction Hl as [|q l Hq Hl IH]; [done|].
  rewrite fmap_cons. cbn [insert_sorted]. rewrite month_name_leb by done.
  destruct (Starter.period_leb p q); [done|]. rewrite fmap_cons. by f_equal.
Qed.

Lemma sorted_month_name (l : list Period) :
  Forall four_digit_year l →
  sorted String.leb (month_name <$> l) = month_name <$> sorted Starter.period_leb l.
Proof.
  induction 1 as [|p l Hp Hl IH]; [done|].
  rewrite fmap_cons. cbn [sorted foldr].
  fold (sorted String.leb (month_name <$> l)). fold (sorted Starter.period_leb l).
  rewrite IH. apply insert_sorted_month_name; [done|].
  by rewrite sorted_Permutation.
Qed.

Lemma sorted_periods_chronological (l : list Period) :
  StronglySorted (λ a b, Starter.period_leb a b = true) l → NoDup l →
  StronglySorted period_lt l.
Proof.
  induction 1 as [|p l Hs IH Hall]; [constructor|].
  intros [Hne Hnd]%list.NoDup_cons. constructor; [by apply IH|].
  apply list.Forall_forall. intros q Hq. rewrite list.Forall_forall in Hall.
  apply period_leb_ne_lt; [by apply Hall|]. by intros ->.
Qed.

Lemma pipeline_months_are_periods (lib : DateLibrary) (csv : list Row)
    (df : list (FeatureRow string)) :
  four_digit_years lib →
  DS.load_and_prepare_data lib csv = Ok df →
  Month <$> df = month_name <$> omap (λ r, to_period (fInvoiceDate r)) df ∧
  Forall four_digit_year (omap (λ r, to_period (fInvoiceDate r)) df).
Proof.
  intros Hfour Hload. apply load_and_prepare_data_derived in Hload.
  assert (Hn : Forall notna (Starter.clean_data csv)).
  { apply list.Forall_forall. intros r Hr. by apply list_elem_of_filter in Hr as [Hr _]. }
  pose proof (four_digit_column_parser lib (InvoiceDate <$> Starter.clean_data csv) ) as Hcol.
  fold (timestamp_parser lib (Starter.clean_data csv)) in Hcol.
  generalize dependent (timestamp_parser lib (Starter.clean_data csv)).
  intros parse_datetime Hload Hcol.
  induction Hload as [|r r' rows df Hr Hrows IH]; [by split|].
  apply list.Forall_cons in Hn as [Hn Hns]. destruct (IH Hns) as [IHm IHf].
  destruct Hr as (_ & _ & _ & _ & _ & Hdate & _ & Hmonth).
  destruct Hn as (_ & _ & _ & [s Hs] & _). rewrite Hs in Hdate. simpl in Hdate.
  destruct (parse_datetime s) as [ts|] eqn:Hparse; [|done]. injection Hdate as Hdate.
  destruct (Hcol _ _ Hfour Hparse) as [Hy Hm].
  rewrite fmap_cons. cbn [omap list_omap]. rewrite <- Hdate. cbn [to_period fmap option_fmap option_map].
  fold (omap (λ r : FeatureRow string, to_period (fInvoiceDate r)) df).
  rewrite fmap_cons, <- IHm, Hmonth, <- Hdate. split; [done|].
  constructor; [|done]. split; done.
Qed.

(** X13: on a table of the pipeline, when every year has at most four
    digits, the dropdown lists the months in chronological order: its
    values are the periods of the timestamps of the table, each once, the
    earlier before the later, written as strings. *)
Theorem dropdown_is_chronological
    (lib : DateLibrary) (csv : list Row)
    (df : list (FeatureRow string)) :
  four_digit_years lib →
  DS.load_and_prepare_data lib csv = Ok df →
  ∃ periods : list Period,
    DS.value (DS.month_filter df) = month_name <$> periods ∧
    StronglySorted period_lt periods ∧
    ∀ p, p ∈ periods ↔ Some p ∈ (λ r, to_period (fInvoiceDate r)) <$> df.
Proof.
  intros Hfour Hload.
  destruct (pipeline_months_are_periods _ _ _ Hfour Hload) as [Hmonths Hps].
  set (ps := omap (λ r, to_period (fInvoiceDate r)) df) in *.
  exists (sorted Starter.period_leb (unique ps)).
  assert (Hu : Forall four_digit_year (unique ps)).
  { apply list.Forall_forall. intros p Hp. rewrite list.Forall_forall in Hps.
    by apply Hps, elem_of_unique. }
  split; [|split].
  - cbn [DS.month_filter DS.value]. unfold DS.months. rewrite Hmonths.
    unfold unique at 1. change (@nil string) with (month_name <$> []).
    rewrite unique_from_month_name by done. by apply sorted_month_name.
  - apply sorted_periods_chronological.
    + apply sorted_sorted; [apply period_leb_total | apply period_leb_trans].
    + rewrite sorted_Permutation. apply NoDup_unique.
  - intros p. rewrite sorted_Permutation, elem_of_unique. unfold ps.
    rewrite list_elem_of_omap, list_elem_of_fmap. split.
    + intros (r & Hr & Hp). by exists r.
    + intros (r & Hp & Hr). by exists r.
Qed.

(** ** The dates of the sample library have four-digit years *)

Lemma iso_digit_bound (c : ascii) (d : nat) : IsoDate.digit c = Some d → d ≤ 9.
Proof.
  unfold IsoDate.digit.
  destruct (48 <=? nat_of_ascii c) eqn:Hlo; [|done].
  destruct (nat_of_ascii c <=? 57) eqn:Hhi; [|done].
  apply Nat.leb_le in Hhi. intros [= <-]. lia.
Qed.

Lemma iso_number_bound (s : string) (acc n : nat) :
  IsoDate.number acc s = Some n → n < (acc + 1) * 10 ^ String.length s.
Proof.
  revert acc. induction s as [|c s IH]; intros acc; cbn [IsoDate.number String.length].
  - intros [= <-]. rewrite Nat.pow_0_r. lia.
  - destruct (IsoDate.digit c) as [d|] eqn:Hd; [|done].
    apply iso_digit_bound in Hd. intros Hn%IH.
    rewrite Nat.pow_succ_r'.
    assert ((10 * acc + d + 1) * 10 ^ String.length s ≤
            ((acc + 1) * 10) * 10 ^ String.length s) by (apply Nat.mul_le_mono_r; lia).
    lia.
Qed.

Lemma substring_length_le (n m : nat) (s : string) :
  String.length (substring n m s) ≤ m.
Proof.
  revert m s. induction n as [|n IH]; intros m s.
  - revert s. induction m as [|m IHm]; intros [|c s]; simpl; try lia.
    specialize (IHm s). lia.
  - destruct s as [|c s]; simpl; [destruct m; simpl; lia | apply IH].
Qed.

Lemma number_four_digits (s : string) (start y : nat) :
  IsoDate.number 0 (substring start 4 s) = Some y → y / 100 < 100.
Proof.
  intros Hy. apply iso_number_bound in Hy.
  pose proof (substring_length_le start 4 s) as Hlen.
  assert (Hpow : 10 ^ String.length (substring start 4 s) ≤ 10 ^ 4)
    by (apply Nat.pow_le_mono_r; lia).
  change (10 ^ 4) with (100 * 100) in Hpow.
  apply Nat.Div0.div_lt_upper_bound. lia.
Qed.

Lemma iso_dates_have_four_digit_years (s : string) (t : Timestamp) :
  IsoDate.parse s = Some t → year t / 100 < 100 ∧ month t < 100.
Proof.
  unfold IsoDate.parse.
  destruct (negb (String.length s =? 10)); [done|].
  destruct (negb (bool_decide (String.get 4 s = Some "-"%char))); [done|].
  destruct (negb (bool_decide (String.get 7 s = Some "-"%char))); [done|].
  destruct (IsoDate.number 0 (substring 0 4 s)) as [y|] eqn:Hy; [|done].
  destruct (IsoDate.number 0 (substring 5 2 s)) as [m|] eqn:Hm; [|done].
  destruct (IsoDate.number 0 (substring 8 2 s)) as [d|] eqn:Hd; [|done].
  destruct ((1 <=? m) && (m <=? 12) && (1 <=? d) && (d <=? IsoDate.days_in y m)) eqn:Hok;
    [|done].
  intros [= <-]. cbn [year month]. split.
  - by eapply number_four_digits.
  - rewrite !andb_true_iff, !Nat.leb_le in Hok. lia.
Qed.

Lemma us_dates_have_four_digit_years (s : string) (t : Timestamp) :
  UsDate.parse s = Some t → year t / 100 < 100 ∧ month t < 100.
Proof.
  unfold UsDate.parse.
  destruct (negb (String.length s =? 10)); [done|].
  destruct (negb (bool_decide (String.get 2 s = Some "/"%char))); [done|].
  destruct (negb (bool_decide (String.get 5 s = Some "/"%char))); [done|].
  destruct (IsoDate.number 0 (substring 6 4 s)) as [y|] eqn:Hy; [|done].
  destruct (IsoDate.number 0 (substring 0 2 s)) as [m|] eqn:Hm; [|done].
  destruct (IsoDate.number 0 (substring 3 2 s)) as [d|] eqn:Hd; [|done].
  destruct ((1 <=? m) && (m <=? 12) && (1 <=? d) && (d <=? IsoDate.days_in y m)) eqn:Hok;
    [|done].
  intros [= <-]. cbn [year month]. split.
  - by eapply number_four_digits.
  - rewrite !andb_true_iff, !Nat.leb_le in Hok. lia.
Qed.

Lemma iso_and_us_four_digit_years : four_digit_years iso_and_us.
Proof.
  intros s t [Hd|[format Hf]].
  - cbn [iso_and_us dateutil_parse] in Hd.
    destruct (IsoDate.parse s) as [t'|] eqn:Hiso.
    + injection Hd as <-. by eapply iso_dates_have_four_digit_years.
    + by eapply us_dates_have_four_digit_years.
  - cbn [iso_and_us strptime] in Hf.
    destruct (String.eqb format "%Y-%m-%d"); [by eapply iso_dates_have_four_digit_years|].
    destruct (String.eqb format "%m/%d/%Y"); [by eapply us_dates_have_four_digit_years|done].
Qed.

(** ** The figures of the report in terms of the file *)

Lemma zip_with_features_columns {M} (to_month : option Timestamp → M)
    (rows : list Row) (dates : list (option Timestamp)) :
  length dates = length rows →
  fQuantity <$> zip_with (with_features to_month) rows dates = Quantity <$> rows ∧
  TotalPrice <$> zip_with (with_features to_month) rows dates =
    (λ r, line_total (Quantity r) (UnitPrice r)) <$> rows.
Proof.
  revert dates. induction rows as [|r rows IH]; intros [|t dates] Hlen; try done.
  injection Hlen as Hlen. destruct (IH _ Hlen) as [IHq IHt].
  cbn [zip_with]. rewrite !fmap_cons, IHq, IHt. done.
Qed.

Lemma int64_small (z : Z) : (- 2 ^ 63 ≤ z < 2 ^ 63)%Z → Starter.int64 z = z.
Proof.
  intros Hz. unfold Starter.int64.
  rewrite Z.mod_small; lia.
Qed.

(** X14: the report script always ends: with a report, with the invalid
    timestamp [pd.to_datetime] rejects, a timestamp of the cleaned file,
    or, when no row is left after cleaning, with the [IndexError] of the
    bar chart.  In a report the average sale is the mean of quantity times
    unit price over the rows of the cleaned file; and when no quantity of
    the file is missing, the total quantity is the sum of the quantities
    of those rows, returns counted negatively, as 64 bits hold it: the sum
    itself when it fits. *)
Theorem report_figures_of_the_cleaned_file (lib : DateLibrary) (csv : list Row) :
  match Starter.main lib csv with
  | Some (Ok report) =>
      Starter.clean_data csv ≠ [] ∧
      Starter.average_sales report =
        mean ((λ r, line_total (Quantity r) (UnitPrice r)) <$> Starter.clean_data csv) ∧
      (Forall (λ r, is_Some (Quantity r)) csv →
       Starter.total_quantity report =
         Starter.int64 (foldr Z.add 0%Z (omap Quantity (Starter.clean_data csv))) ∧
       ((- 2 ^ 63 ≤ foldr Z.add 0%Z (omap Quantity (Starter.clean_data csv)) < 2 ^ 63)%Z →
        Starter.total_quantity report =
          foldr Z.add 0%Z (omap Quantity (Starter.clean_data csv))))
  | Some (Raise (InvalidTimestamp s)) =>
      Some s ∈ InvoiceDate <$> Starter.clean_data csv ∧
      timestamp_parser lib (Starter.clean_data csv) s = None
  | Some (Raise IndexError) => Starter.clean_data csv = []
  | None => False
  end.
Proof.
  rewrite main_clean.
  destruct (array_to_datetime _ _) as [dates|e] eqn:Hd.
  - assert (Hn : Forall notna (Starter.clean_data csv)).
    { apply list.Forall_forall. intros r Hr. by apply list_elem_of_filter in Hr as [Hr _]. }
    assert (Hlen : length dates = length (Starter.clean_data csv)).
    { apply array_to_datetime_Ok, Forall2_length in Hd. by rewrite length_fmap in Hd. }
    destruct (zip_with_features_columns to_period _ _ Hlen) as [Hq Ht].
    unfold Starter.report.
    destruct (create_bar_chart_raises
                (zip_with (with_features to_period) (Starter.clean_data csv) dates)
                (zip_with_features_descriptions _ _ _ Hn)) as [[Hbar Hnil]|[Hbar Hne]].
    + destruct (Starter.descriptive_analysis _) as [[average top] quantity].
      cbn [fst snd] in Hbar. rewrite Hbar. cbn [mbind result_bind].
      destruct (Starter.clean_data csv) as [|r rows]; [done|]. by destruct dates.
    + unfold Starter.descriptive_analysis in *. cbn [fst snd] in Hbar. rewrite Hbar.
      cbn [mbind result_bind mret result_ret Starter.total_quantity Starter.average_sales].
      split; [|split].
      * intros Hclean. apply Hne. by rewrite Hclean.
      * by rewrite Ht.
      * intros _. unfold Starter.sum_int. rewrite Hq, <- omap_remove_na.
        split; [done|]. apply int64_small.
  - destruct (array_to_datetime_error _ _ _ Hd) as (s & -> & Hs & Hp). done.
Qed.

(** ** The texts of the KPI cards *)

Lemma group3_nonempty (d : ascii) (rest : list ascii) : DS.group3 (d :: rest) ≠ [].
Proof. destruct rest as [|? [|? [|? ?]]]; done. Qed.

Lemma group3_step (a b c d : ascii) (rest : list ascii) :
  DS.group3 (a :: b :: c :: d :: rest) = a :: b :: c :: ","%char :: DS.group3 (d :: rest).
Proof. reflexivity. Qed.

Lemma ungroup3_step (a b c x : ascii) (xs : list ascii) :
  ungroup3 (a :: b :: c :: ","%char :: x :: xs) =
  (λ r, a :: b :: c :: r) <$> ungroup3 (x :: xs).
Proof. reflexivity. Qed.

Lemma ungroup3_group3 (digits : list ascii) : ungroup3 (DS.group3 digits) = Some digits.
Proof.
  assert (Hgen : ∀ n l, length l ≤ n → ungroup3 (DS.group3 l) = Some l).
  { clear. induction n as [|n IH]; intros l Hlen.
    - destruct l; [done | simpl in Hlen; lia].
    - destruct l as [|a [|b [|c [|d rest]]]]; try done.
      rewrite group3_step.
      assert (Hrest : ungroup3 (DS.group3 (d :: rest)) = Some (d :: rest))
        by (apply IH; simpl in *; lia).
      pose proof (group3_nonempty d rest) as Hne.
      destruct (DS.group3 (d :: rest)) as [|x xs]; [done|].
      by rewrite ungroup3_step, Hrest. }
  by apply (Hgen (length digits)).
Qed.

Lemma group3_plain (digits : list ascii) :
  Forall plain digits → Forall plain (DS.group3 digits).
Proof.
  assert (Hgen : ∀ n l, length l ≤ n → Forall plain l → Forall plain (DS.group3 l)).
  { clear. induction n as [|n IH]; intros l Hlen Hl.
    - destruct l; [done | simpl in Hlen; lia].
    - destruct l as [|a [|b [|c [|d rest]]]]; try done.
      rewrite group3_step.
      apply list.Forall_cons in Hl as [Ha Hl]. apply list.Forall_cons in Hl as [Hb Hl].
      apply list.Forall_cons in Hl as [Hc Hl].
      do 3 (constructor; [done|]). constructor; [by split|].
      apply IH; [simpl in *; lia | done]. }
  by apply (Hgen (length digits)).
Qed.

Lemma decimal_plain (d : Decimal.uint) :
  Forall plain (list_ascii_of_string (NilEmpty.string_of_uint d)).
Proof.
  induction d; simpl; constructor; try done; by split.
Qed.

Lemma decimal_nonempty (n : N) : DS.decimal n ≠ EmptyString.
Proof.
  unfold DS.decimal.
  assert (Hn : N.to_uint n ≠ Decimal.Nil).
  { destruct n as [|p]; [done|]. apply DecimalPos.Unsigned.to_uint_nonnil. }
  by destruct (N.to_uint n).
Qed.

Lemma read_digits_decimal (n : N) : read_digits (DS.decimal n) = Some n.
Proof.
  unfold read_digits, NilZero.uint_of_string. pose proof (decimal_nonempty n) as Hne.
  destruct (DS.decimal n) as [|c s] eqn:Hd; [done|]. rewrite <- Hd. unfold DS.decimal.
  rewrite NilEmpty.usu. simpl. by rewrite DecimalN.Unsigned.of_to.
Qed.

Lemma thousands_chars (digits : string) :
  list_ascii_of_string (DS.thousands digits) =
  rev (DS.group3 (rev (list_ascii_of_string digits))).
Proof. unfold DS.thousands. apply list_ascii_of_string_of_list_ascii. Qed.

Lemma thousands_plain (n : N) :
  Forall plain (list_ascii_of_string (DS.thousands (DS.decimal n))).
Proof.
  rewrite thousands_chars. apply Forall_rev, group3_plain, Forall_rev, decimal_plain.
Qed.

Lemma thousands_nonempty (n : N) : DS.thousands (DS.decimal n) ≠ EmptyString.
Proof.
  intros Hempty. apply (f_equal list_ascii_of_string) in Hempty.
  rewrite thousands_chars in Hempty. simpl in Hempty.
  apply (f_equal (@rev ascii)) in Hempty. rewrite rev_involutive in Hempty. simpl in Hempty.
  pose proof (decimal_nonempty n) as Hne.
  destruct (DS.decimal n) as [|c s] eqn:Hd; [done|].
  assert (Hrev : rev (list_ascii_of_string (String c s)) ≠ []).
  { simpl. by destruct (rev (list_ascii_of_string s)). }
  destruct (rev (list_ascii_of_string (String c s))) as [|x xs]; [done|].
  by apply (group3_nonempty x xs).
Qed.

Lemma read_thousands (n : N) :
  (digits ← ungroup3 (rev (list_ascii_of_string (DS.thousands (DS.decimal n))));
   read_digits (string_of_list_ascii (rev digits))) = Some n.
Proof.
  rewrite thousands_chars, rev_involutive, ungroup3_group3. simpl.
  rewrite rev_involutive, string_of_list_ascii_of_string. apply read_digits_decimal.
Qed.

Lemma split_at_point_step (c : ascii) (rest : string) :
  split_at_point (String c rest) =
  if Ascii.eqb c "." then Some (EmptyString, rest)
  else (λ p : string * string, (String c p.1, p.2)) <$> split_at_point rest.
Proof. reflexivity. Qed.

Lemma split_at_point_append (whole frac : string) :
  Forall plain (list_ascii_of_string whole) →
  split_at_point (whole +:+ String "." frac) = Some (whole, frac).
Proof.
  induction whole as [|c whole IH]; intros Hplain.
  - reflexivity.
  - simpl in Hplain. apply list.Forall_cons in Hplain as [[Hc _] Hplain].
    change (String c whole +:+ String "." frac)%string
      with (String c (whole +:+ String "." frac)).
    rewrite split_at_point_step.
    destruct (Ascii.eqb_spec c "."%char) as [->|_]; [done|].
    by rewrite IH.
Qed.

Lemma read_digits_pad2 (n : nat) :
  n < 100 → read_digits (pad2 n) = Some (N.of_nat n).
Proof.
  intros Hn. do 100 (destruct n as [|n]; [reflexivity|]). lia.
Qed.

Lemma round_half_even_close (q : Q) :
  (0 <= q)%Q → (0 ≤ DS.round_half_even q)%Z ∧ (Qabs (inject_Z (DS.round_half_even q) - q) <= 1 # 2)%Q.
Proof.
  destruct q as [a b]. intros Ha. unfold Qle in Ha. cbn [Qnum Qden] in Ha.
  unfold DS.round_half_even. cbn [Qnum Qden].
  pose proof (Z.div_mod a (Z.pos b) ltac:(done)) as Hdm.
  pose proof (Z.mod_pos_bound a (Z.pos b) ltac:(done)) as Hmod.
  assert (Hdiv : (0 ≤ a / Z.pos b)%Z) by (apply Z.div_pos; lia).
  set (w := (a / Z.pos b)%Z) in *. set (r := (a mod Z.pos b)%Z) in *.
  clearbody w r.
  assert (Hclose : ∀ z : Z, (2 * Z.abs (z * Z.pos b - a) ≤ Z.pos b)%Z →
                            (Qabs (inject_Z z - (a # b)) <= 1 # 2)%Q).
  { intros z Hz. apply Qabs_Qle_condition. unfold Qle, Qminus, Qplus, Qopp, inject_Z.
    simpl. split; lia. }
  destruct (Z.ltb_spec (2 * r) (Z.pos b)).
  { split; [done|]. apply Hclose. lia. }
  destruct (Z.ltb_spec (Z.pos b) (2 * r)).
  { split; [lia|]. apply Hclose. rewrite Z.mul_add_distr_r. lia. }
  destruct (Z.even w); (split; [lia|]); apply Hclose; rewrite ?Z.mul_add_distr_r; lia.
Qed.

(** A value half way between two whole numbers goes to the even one. *)
Lemma round_half_even_tie (q : Q) :
  (0 <= q)%Q → (Qabs (inject_Z (DS.round_half_even q) - q) == 1 # 2)%Q →
  Z.even (DS.round_half_even q) = true.
Proof.
  destruct q as [a b]. intros Ha. unfold Qle in Ha. cbn [Qnum Qden] in Ha.
  unfold DS.round_half_even. cbn [Qnum Qden].
  pose proof (Z.div_mod a (Z.pos b) ltac:(done)) as Hdm.
  pose proof (Z.mod_pos_bound a (Z.pos b) ltac:(done)) as Hmod.
  set (w := (a / Z.pos b)%Z) in *. set (r := (a mod Z.pos b)%Z) in *.
  clearbody w r.
  assert (Hhalf : ∀ z : Z, (Qabs (inject_Z z - (a # b)) == 1 # 2)%Q →
                           (2 * Z.abs (z * Z.pos b - a) = Z.pos b)%Z).
  { intros z. unfold Qeq, Qabs, Qminus, Qplus, Qopp, inject_Z. simpl. lia. }
  destruct (Z.ltb_spec (2 * r) (Z.pos b)).
  { intros Hz%Hhalf. lia. }
  destruct (Z.ltb_spec (Z.pos b) (2 * r)).
  { intros Hz%Hhalf. rewrite Z.mul_add_distr_r in Hz. lia. }
  destruct (Z.even w) eqn:Hw; [done|]. intros _.
  rewrite Z.add_1_r, Z.even_succ, <- Z.negb_even, Hw. done.
Qed.

Lemma cents_nonneg (x : Qc) : (0 ≤ DS.cents x)%Z.
Proof.
  unfold DS.cents. apply round_half_even_close.
  apply Qmult_le_0_compat; [apply Qabs_nonneg | done].
Qed.

Lemma strip_sign_thousands (n : N) (rest : string) :
  strip_sign (DS.thousands (DS.decimal n) +:+ rest) = (false, DS.thousands (DS.decimal n) +:+ rest)%string.
Proof.
  pose proof (thousands_plain n) as Hplain. pose proof (thousands_nonempty n) as Hne.
  destruct (DS.thousands (DS.decimal n)) as [|c s]; [done|].
  simpl in Hplain. apply list.Forall_cons in Hplain as [[_ Hc] _].
  change (String c s +:+ rest)%string with (String c (s +:+ rest)).
  unfold strip_sign. by destruct (Ascii.eqb_spec c "-"%char).
Qed.

Lemma read_money_format_money (x : Qc) :
  read_money (DS.format_money (Some x)) = Some (bool_decide (x < 0)%Qc, DS.cents x).
Proof.
  pose proof (cents_nonneg x) as Hc.
  pose proof (Z.mod_pos_bound (DS.cents x) 100 ltac:(done)) as Hmod.
  pose proof (Z.div_mod (DS.cents x) 100 ltac:(done)) as Hdm.
  assert (Hdiv : (0 ≤ DS.cents x / 100)%Z) by (apply Z.div_pos; lia).
  unfold DS.format_money, read_money. rewrite Ascii.eqb_refl.
  set (whole := Z.to_N (DS.cents x / 100)). set (frac := Z.to_nat (DS.cents x mod 100)).
  assert (Hsign : strip_sign ((if decide (x < 0)%Qc then "-" else "") +:+
                              DS.thousands (DS.decimal whole) +:+ "." +:+ pad2 frac) =
                  (bool_decide (x < 0)%Qc,
                   DS.thousands (DS.decimal whole) +:+ String "." (pad2 frac))%string).
  { destruct (decide (x < 0)%Qc) as [Hneg|Hpos].
    - by rewrite bool_decide_true.
    - rewrite bool_decide_false by done. apply strip_sign_thousands. }
  rewrite Hsign. cbn [fst snd].
  rewrite split_at_point_append by apply thousands_plain. cbn [mbind option_bind fst snd].
  pose proof (read_thousands whole) as Hwhole.
  destruct (ungroup3 _) as [digits|]; [|done]. cbn [mbind option_bind] in *.
  rewrite Hwhole. cbn [mbind option_bind].
  change (String.length (pad2 frac) =? 2) with true. cbv iota.
  rewrite read_digits_pad2 by (unfold frac; lia). cbn [mbind option_bind].
  do 2 f_equal. unfold whole, frac. lia.
Qed.

(** X15: an amount on a KPI card reads back as its value rounded to the
    cent, a half cent going to the even cent.  The text is a dollar sign,
    a minus sign when the value is negative, the whole part in
    comma-separated groups of three digits, a point and two digits; the
    cents shown are within half a cent of the value, and are even when the
    value is half a cent away from them: 0.125 is shown as 0.12 and 0.375
    as 0.38.  NaN is written as a text that is no amount.  The order count
    is written as its decimal digits. *)
Theorem kpi_texts_read_back :
  (∀ x : Qc,
     read_money (DS.format_money (Some x)) = Some (bool_decide (x < 0)%Qc, DS.cents x) ∧
     (Qabs (inject_Z (DS.cents x) - Qabs x * 100) <= 1 # 2)%Q ∧
     ((Qabs (inject_Z (DS.cents x) - Qabs x * 100) == 1 # 2)%Q →
      Z.even (DS.cents x) = true)) ∧
  DS.format_money (Some (Q2Qc (1 # 8))) = "$0.12"%string ∧
  DS.format_money (Some (Q2Qc (3 # 8))) = "$0.38"%string ∧
  DS.format_money (Some (Q2Qc (-2469135 # 2))) = "$-1,234,567.50"%string ∧
  read_money (DS.format_money None) = None ∧
  (∀ n : nat, read_digits (DS.format_count n) = Some (N.of_nat n)).
Proof.
  split; [|split; [|split; [|split; [|split]]]].
  - intros x.
    assert (Hpos : (0 <= Qabs x * 100)%Q)
      by (apply Qmult_le_0_compat; [apply Qabs_nonneg | done]).
    split; [apply read_money_format_money|]. split.
    + by apply round_half_even_close.
    + by apply round_half_even_tie.
  - reflexivity.
  - reflexivity.
  - reflexivity.
  - reflexivity.
  - intros n. apply read_digits_decimal.
Qed.

(** X16: with no month selected the three cards show "$0.00", "$nan" and
    "0", whatever the table. *)
Theorem cards_of_an_empty_selection (df : list (FeatureRow string)) :
  card_texts <$> DS.kpi_cards (DS.kpis (DS.update_dashboard df [])) =
  [Some ("Total Revenue", "$0.00"); Some ("Average Sale", "$nan");
   Some ("Total Orders", "0")]%string.
Proof.
  unfold DS.update_dashboard. rewrite isin_months_nil. reflexivity.
Qed.

(** ** The further properties at concrete tables *)

(** X3 on a selection written twice with a month the table does not have. *)
Lemma selection_with_repetitions_and_strangers :
  (∀ m, m ∈ Month <$> [lantern_line; heart_line] →
        (m ∈ ["2010-12"%string] ↔ m ∈ ["2010-12"; "1999-01"; "2010-12"]%string)) ∧
  DS.update_dashboard [lantern_line; heart_line] ["2010-12"%string] =
  DS.update_dashboard [lantern_line; heart_line] ["2010-12"; "1999-01"; "2010-12"]%string.
Proof.
  assert (Hsel : ∀ m, m ∈ Month <$> [lantern_line; heart_line] →
     (m ∈ ["2010-12"%string] ↔ m ∈ ["2010-12"; "1999-01"; "2010-12"]%string)).
  { intros m Hm. cbn in Hm.
    apply elem_of_cons in Hm as [->|Hm];
      [|apply elem_of_cons in Hm as [->|Hm]; [|inversion Hm]];
      (split; intros _; left). }
  split; [exact Hsel|].
  apply (selection_counts_as_a_set [lantern_line; heart_line]). exact Hsel.
Defined.

(** X6 on a store that holds one loaded table. *)
Lemma prepare_features_twice_on_sale_and_return :
  ∃ h', Starter.prepare_features iso_and_us [Starter.Loaded sale_and_return] 0 =
          Some (Ok 0, h') ∧
        Starter.prepare_features iso_and_us h' 0 = Some (Ok 0, h').
Proof.
  eexists. split; [reflexivity|].
  apply (prepare_features_twice iso_and_us [Starter.Loaded sale_and_return] _ 0 0
           sale_and_return); reflexivity.
Defined.

(** X7 on a sale and a return of one month. *)
Lemma average_of_sale_and_return :
  ∃ df, DS.load_and_prepare_data iso_and_us sale_and_return = Ok df ∧
    DS.average_sale (DS.kpis (DS.update_dashboard df ["2010-12"%string])) =
    if decide (DS.isin_months df ["2010-12"%string] = []) then None
    else Some (DS.total_revenue (DS.kpis (DS.update_dashboard df ["2010-12"%string])) /
               row_count (DS.isin_months df ["2010-12"%string]))%Qc.
Proof.
  eexists. split; [reflexivity|].
  apply (average_sale_is_revenue_per_row iso_and_us sale_and_return). reflexivity.
Defined.

(** X10 from no month selected to one. *)
Lemma orders_from_no_month_to_one :
  (∀ m : string, m ∈ @nil string → m ∈ ["2010-12"%string]) ∧
  DS.total_orders (DS.kpis (DS.update_dashboard [lantern_line; heart_line] [])) ≤
  DS.total_orders (DS.kpis (DS.update_dashboard [lantern_line; heart_line] ["2010-12"%string])).
Proof.
  assert (Hsub : ∀ m : string, m ∈ @nil string → m ∈ ["2010-12"%string]).
  { intros m Hm. inversion Hm. }
  split; [exact Hsub|].
  apply (more_months_never_fewer_orders [lantern_line; heart_line] [] ["2010-12"%string] Hsub).
Defined.

(** X12 on a file with a repeated row and a row without a price, and on
    a file without rows. *)
Lemma both_scripts_on_file_with_duplicate_and_gap :
  four_digit_years iso_and_us ∧
  (∃ view report,
     DS.main iso_and_us file_with_duplicate_and_gap = Ok view ∧
     Starter.main iso_and_us file_with_duplicate_and_gap = Some (Ok report) ∧
     same_figures view report) ∧
  DS.main iso_and_us [] = Ok (DS.create_dashboard []) ∧
  Starter.main iso_and_us [] = Some (Raise IndexError).
Proof.
  split; [exact iso_and_us_four_digit_years|]. split; [|split; reflexivity].
  pose proof (both_scripts_show_the_same_figures iso_and_us file_with_duplicate_and_gap
                iso_and_us_four_digit_years) as Hsame.
  destruct (DS.main iso_and_us file_with_duplicate_and_gap) as [view|e] eqn:HD;
    [|vm_compute in HD; discriminate].
  destruct (Starter.main iso_and_us file_with_duplicate_and_gap) as [[report|e]|] eqn:HS;
    [|vm_compute in HS; discriminate..].
  exists view, report. by destruct Hsame.
Defined.

(** X13 on a file with rows of December 2010 and January 2011. *)
Lemma dropdown_of_file_with_duplicate_and_gap :
  four_digit_years iso_and_us ∧
  ∃ df, DS.load_and_prepare_data iso_and_us file_with_duplicate_and_gap = Ok df ∧
    ∃ periods : list Period,
      DS.value (DS.month_filter df) = month_name <$> periods ∧
      StronglySorted period_lt periods ∧
      ∀ p, p ∈ periods ↔ Some p ∈ (λ r, to_period (fInvoiceDate r)) <$> df.
Proof.
  split; [exact iso_and_us_four_digit_years|].
  eexists. split; [reflexivity|].
  apply (dropdown_is_chronological iso_and_us file_with_duplicate_and_gap);
    [exact iso_and_us_four_digit_years | reflexivity].
Defined.

(** X14 on a sale of two and a return of six at 3.00 each. *)
Lemma report_of_sale_and_return :
  Forall (λ r, is_Some (Quantity r)) sale_and_return ∧
  ∃ report, Starter.main iso_and_us sale_and_return = Some (Ok report) ∧
            Starter.total_quantity report = (-4)%Z ∧
            Starter.average_sales report = Some (Q2Qc (-6 # 1)).
Proof.
  assert (Hq : Forall (λ r, is_Some (Quantity r)) sale_and_return).
  { repeat constructor; by eexists. }
  split; [exact Hq|].
  pose proof (report_figures_of_the_cleaned_file iso_and_us sale_and_return) as Hreport.
  destruct (Starter.main iso_and_us sale_and_return) as [[report|e]|] eqn:Hmain;
    [|vm_compute in Hmain; discriminate..].
  exists report. split; [reflexivity|].
  destruct Hreport as (_ & Haverage & Hquantity).
  destruct (Hquantity Hq) as [_ Hsum]. split.
  - rewrite Hsum; [reflexivity | vm_compute; split; [discriminate | reflexivity]].
  - rewrite Haverage. vm_compute. f_equal. apply Qc_is_canon. reflexivity.
Defined.
